(** * A shallow embedding of [examples/fastapi/app.py]

    The script glues an LLRP reader client to a FastAPI application: HTTP
    handlers start and stop the inventory, two callbacks receive tag reports
    and reader events, and a background task forwards queued reports to the
    WebSocket subscribers.

    The module globals ([READER], [TAG_DATA], [TAG_QUEUE],
    [ACTIVE_CONNECTIONS]) become the fields of one record that is threaded
    through a state-and-exception monad.  A Python exception leaves the
    mutations made before it in place, so a computation returns its final
    state also when it raises.  Everything the script does to the outside
    world (calls into the reader client, WebSocket traffic, sleeping,
    logging) is appended, in program order, to a trace kept in the state. *)

From Stdlib Require Import List String Ascii ZArith NArith Bool Lia.
From Stdlib.Strings Require Import Byte.
Import ListNotations.

Set Implicit Arguments.
Set Warnings "-register-all".

(** ** Values exchanged with the outside world *)

(** JSON documents, as the handlers return them and [send_json] sends them.
    An object keeps its members in insertion order, like a Python dict. *)
Inductive json : Type :=
| JNull
| JBool (b : bool)
| JInt (z : Z)
| JStr (s : string)
| JList (items : list json)
| JObj (members : list (string * json)).

(** [class RFIDTag(BaseModel)] *)
Record RFIDTag : Type := mkRFIDTag {
  epc : string;
  channel : Z;
  last_seen : Z;
  seen_count : Z
}.

(** One entry of the [tag_reports] list handed to the tag-report callback:
    the four keys that [tag_report_cb] reads, with the library's types
    ([bytes] for the EPC, [int] for the rest). *)
Record TagReport : Type := mkTagReport {
  EPC : list byte;
  ChannelIndex : Z;
  LastSeenTimestampUTC : Z;
  TagSeenCount : Z
}.

(** The value stored under the key ["GPIEvent"] of a reader event.  It is
    read with [dict.get], which answers [None] for an absent key. *)
Record GPIEventParam : Type := mkGPIEventParam {
  GPIPortNumber : option Z;
  GPIEvent : option bool
}.

(** The [event] dict handed to the event callback.  For each of the two
    keys the callback looks at, the outer [option] says whether the key is
    in the dict.  A ["GPIEvent"] key may hold [None]: inner [option]. *)
Record LLRPEvent : Type := mkLLRPEvent {
  ev_GPIEvent : option (option GPIEventParam);
  ev_ConnectionAttemptEvent : option json
}.

(** [LLRPReaderConfig], restricted to the attributes the script sets. *)
Record LLRPReaderConfig : Type := mkLLRPReaderConfig {
  reset_on_connect : bool;
  start_inventory : bool;
  event_selector : list (string * bool)
}.

(** A WebSocket object.  Starlette compares connections by identity, so a
    connection is represented by the identity of its object. *)
Definition WebSocket : Type := nat.

(** ** Exceptions *)

Inductive exn : Type :=
| AttributeError        (* attribute access on [None] *)
| ValueError            (* [list.remove(x)]: x not in list *)
| UnicodeDecodeError    (* [bytes.decode("ascii")] on a byte above 0x7f *)
| WebSocketDisconnect   (* starlette.websockets.WebSocketDisconnect *)
| OtherException        (* any other subclass of [Exception] *)
| CancelledError.       (* a [BaseException] that is not an [Exception] *)

(** [isinstance(e, Exception)], the test made by [except Exception]. *)
Definition isinstance_Exception (e : exn) : bool :=
  match e with
  | CancelledError => false
  | _ => true
  end.

(** [isinstance(e, WebSocketDisconnect)] *)
Definition isinstance_WebSocketDisconnect (e : exn) : bool :=
  match e with
  | WebSocketDisconnect => true
  | _ => false
  end.

Inductive result (A : Type) : Type :=
| Ok (a : A)
| Raise (e : exn).

Arguments Ok {A} a.
Arguments Raise {A} e.

(** ** The trace of external effects *)

Inductive ReaderMethod : Type :=
| add_tag_report_callback
| add_event_callback
| connect
| disconnect
| startInventory
| stopPolitely.

Inductive LogLevel : Type := INFO | ERROR.

Inductive Event : Type :=
| EvAssignTagData (tags : list RFIDTag)   (* [TAG_DATA = tags] *)
| EvReaderCall (m : ReaderMethod)         (* a method of the reader client is called *)
| EvAccept (ws : WebSocket)               (* [await ws.accept()] *)
| EvSendJson (ws : WebSocket) (msg : json) (failure : option exn)
                                          (* [await ws.send_json(msg)] and how it ended *)
| EvSleep (ms : Z)                        (* [await asyncio.sleep(ms / 1000)] *)
| EvLog (lvl : LogLevel) (msg : string).  (* [logging.info] / [logging.error];
                                             interpolated values are left out *)

(** What the environment answers to one [await connection.send_json(..)]. *)
Inductive SendOutcome : Type :=
| Sent
| SendRaises (e : exn).

(** What the environment answers to one [await websocket.receive_text()]. *)
Inductive RecvOutcome : Type :=
| RecvText (text : string)
| RecvRaises (e : exn).

(** ** The reader client, an opaque collaborator

    The LLRP client library is not part of the script.  The script only
    relies on this interface: whether the client is alive, the state code
    of its LLRP connection, the name the library gives to a state code, and
    methods that are called for their effect.  A method call may change the
    client and may raise. *)
Class LLRPReaderClient (R : Type) : Type := {
  LLRP_DEFAULT_PORT : Z;
  new_client : string -> Z -> LLRPReaderConfig -> result R;
  is_alive : R -> bool;
  llrp_state : R -> Z;
  getStateName : Z -> string;
  invoke : ReaderMethod -> R -> option exn * R
}.

(** ** Pure helpers *)

(** [bs.decode("ascii")]: defined when every byte is below 0x80. *)
Fixpoint decode_ascii (bs : list byte) : option string :=
  match bs with
  | [] => Some EmptyString
  | b :: bs' =>
      if (Byte.to_N b <? 128)%N
      then option_map (String (ascii_of_byte b)) (decode_ascii bs')
      else None
  end.

(** The [RFIDTag(...)] expression of [tag_report_cb] for one report. *)
Definition tag_of_report (tag : TagReport) : option RFIDTag :=
  match decode_ascii (EPC tag) with
  | Some s =>
      Some {| epc := s;
              channel := ChannelIndex tag;
              last_seen := LastSeenTimestampUTC tag;
              seen_count := TagSeenCount tag |}
  | None => None
  end.

(** The list comprehension of [tag_report_cb]: the reports are translated
    from left to right and the first one that fails aborts the whole. *)
Fixpoint tags_of_reports (tag_reports : list TagReport) : option (list RFIDTag) :=
  match tag_reports with
  | [] => Some []
  | tag :: rest =>
      match tag_of_report tag with
      | Some t => option_map (cons t) (tags_of_reports rest)
      | None => None
      end
  end.

(** [tag.model_dump()] *)
Definition model_dump (tag : RFIDTag) : json :=
  JObj [("epc"%string, JStr (epc tag));
        ("channel"%string, JInt (channel tag));
        ("last_seen"%string, JInt (last_seen tag));
        ("seen_count"%string, JInt (seen_count tag))].

(** [{"tags": tags}] *)
Definition tags_message (tags : list json) : json :=
  JObj [("tags"%string, JList tags)].

(** [{"message": text}] *)
Definition message (text : string) : json :=
  JObj [("message"%string, JStr text)].

(** [x in l] on a list of connections. *)
Fixpoint contains (x : WebSocket) (l : list WebSocket) : bool :=
  match l with
  | [] => false
  | y :: l' => if Nat.eqb x y then true else contains x l'
  end.

(** [l.remove(x)]: drops the first occurrence of [x]; [None] stands for the
    [ValueError] raised when there is none. *)
Fixpoint list_remove (x : WebSocket) (l : list WebSocket) : option (list WebSocket) :=
  match l with
  | [] => None
  | y :: l' =>
      if Nat.eqb x y then Some l'
      else option_map (cons y) (list_remove x l')
  end.

(** The hard-wired address of the reader.  The port, [PORT], is the
    library's [LLRP_DEFAULT_PORT]: see the interface of the reader client. *)
Definition READER_IP : string := "localhost"%string.

(** ** The state of the module and the monad of its code *)

Section App.

Context {R : Type} {client : LLRPReaderClient R}.

(** The module globals, and the trace of effects so far (oldest first).
    [TAG_QUEUE] is a FIFO: [put] appends at the end, [get] takes the head.
    Each of its items is the list of dumped tags of one report batch. *)
Record State : Type := mkState {
  READER : option R;
  TAG_DATA : list RFIDTag;
  TAG_QUEUE : list (list json);
  ACTIVE_CONNECTIONS : list WebSocket;
  trace : list Event
}.

Definition set_READER (v : option R) (st : State) : State :=
  mkState v (TAG_DATA st) (TAG_QUEUE st) (ACTIVE_CONNECTIONS st) (trace st).

Definition set_TAG_DATA (v : list RFIDTag) (st : State) : State :=
  mkState (READER st) v (TAG_QUEUE st) (ACTIVE_CONNECTIONS st) (trace st).

Definition set_TAG_QUEUE (v : list (list json)) (st : State) : State :=
  mkState (READER st) (TAG_DATA st) v (ACTIVE_CONNECTIONS st) (trace st).

Definition set_ACTIVE_CONNECTIONS (v : list WebSocket) (st : State) : State :=
  mkState (READER st) (TAG_DATA st) (TAG_QUEUE st) v (trace st).

Definition record (e : Event) (st : State) : State :=
  mkState (READER st) (TAG_DATA st) (TAG_QUEUE st) (ACTIVE_CONNECTIONS st)
          (trace st ++ [e]).

(** The module as it is right after import. *)
Definition module_init : State :=
  mkState None [] [] [] [].

Definition M (A : Type) : Type := State -> result A * State.

Definition ret {A : Type} (a : A) : M A :=
  fun st => (Ok a, st).

Definition bind {A B : Type} (m : M A) (k : A -> M B) : M B :=
  fun st =>
    match m st with
    | (Ok a, st') => k a st'
    | (Raise e, st') => (Raise e, st')
    end.

Definition raise {A : Type} (e : exn) : M A :=
  fun st => (Raise e, st).

Definition gets {A : Type} (f : State -> A) : M A :=
  fun st => (Ok (f st), st).

Definition modify (f : State -> State) : M unit :=
  fun st => (Ok tt, f st).

Definition emit (e : Event) : M unit :=
  modify (record e).

(** The [except] clauses of a [try] statement: a test on the exception and
    the handler.  The first clause whose test holds is chosen. *)
Definition clause (A : Type) : Type := ((exn -> bool) * (exn -> M A))%type.

Fixpoint select_handler {A : Type} (clauses : list (clause A)) (e : exn)
  : option (M A) :=
  match clauses with
  | [] => None
  | (test, handler) :: rest =>
      if test e then Some (handler e) else select_handler rest e
  end.

(** [try: body  except ..: ..  except ..: ..].  An exception that no clause
    matches propagates, and so does one raised inside a handler: the other
    clauses of the same [try] do not see it. *)
Definition try_except {A : Type} (body : M A) (clauses : list (clause A)) : M A :=
  fun st =>
    match body st with
    | (Ok a, st') => (Ok a, st')
    | (Raise e, st') =>
        match select_handler clauses e with
        | Some handler => handler st'
        | None => (Raise e, st')
        end
    end.

(** [try: body  finally: cleanup] *)
Definition try_finally {A : Type} (body : M A) (cleanup : M unit) : M A :=
  fun st =>
    match body st with
    | (r, st') =>
        match cleanup st' with
        | (Ok _, st'') => (r, st'')
        | (Raise e, st'') => (Raise e, st'')
        end
    end.

End App.

Declare Scope app_scope.
Delimit Scope app_scope with app.
Notation "x <- m ;; k" := (bind m (fun x => k))
  (at level 61, m at next level, right associativity) : app_scope.
Notation "m ;; k" := (bind m (fun _ => k))
  (at level 61, right associativity) : app_scope.
Open Scope app_scope.

(** ** The code of the script *)

Section Code.

Context {R : Type} {client : LLRPReaderClient R}.

#[local] Abbreviation M := (@M R).

(** [for x in l: body(x)] *)
Fixpoint for_each {A : Type} (l : list A) (body : A -> M unit) : M unit :=
  match l with
  | [] => ret tt
  | x :: l' => body x ;; for_each l' body
  end.

Definition log (lvl : LogLevel) (msg : string) : M unit :=
  emit (EvLog lvl msg).

(** [await asyncio.sleep(..)], in milliseconds. *)
Definition sleep (ms : Z) : M unit :=
  emit (EvSleep ms).

(** [global TAG_DATA; TAG_DATA = tags] *)
Definition assign_TAG_DATA (tags : list RFIDTag) : M unit :=
  modify (fun st => record (EvAssignTagData tags) (set_TAG_DATA tags st)).

(** [READER and READER.is_alive()] *)
Definition reader_is_alive : M bool :=
  gets (fun st =>
          match READER st with
          | Some r => is_alive r
          | None => false
          end).

(** A call of a method of [READER] (or of [READER.llrp]) for its effect.
    On [None] the attribute lookup fails before anything is called. *)
Definition call_reader (m : ReaderMethod) : M unit :=
  fun st =>
    match READER st with
    | None => (Raise AttributeError, st)
    | Some r =>
        let (failure, r') := invoke m r in
        let st' := set_READER (Some r') (record (EvReaderCall m) st) in
        match failure with
        | None => (Ok tt, st')
        | Some e => (Raise e, st')
        end
    end.

(** [TAG_QUEUE.put(item)]; the queue is unbounded, so this never blocks. *)
Definition queue_put (item : list json) : M unit :=
  modify (fun st => set_TAG_QUEUE (TAG_QUEUE st ++ [item]) st).

(** [ACTIVE_CONNECTIONS.append(ws)] *)
Definition connections_append (ws : WebSocket) : M unit :=
  modify (fun st => set_ACTIVE_CONNECTIONS (ACTIVE_CONNECTIONS st ++ [ws]) st).

(** [ACTIVE_CONNECTIONS.remove(ws)] *)
Definition connections_remove (ws : WebSocket) : M unit :=
  fun st =>
    match list_remove ws (ACTIVE_CONNECTIONS st) with
    | Some l => (Ok tt, set_ACTIVE_CONNECTIONS l st)
    | None => (Raise ValueError, st)
    end.

(** *** [tag_report_cb] *)
Definition tag_report_cb (tag_reports : list TagReport) : M unit :=
  match tags_of_reports tag_reports with
  | None => raise UnicodeDecodeError
  | Some tags =>
      assign_TAG_DATA tags ;;
      tag_data <- gets TAG_DATA ;;
      let serializable_tags := map model_dump tag_data in
      queue_put serializable_tags ;;
      log INFO "Received tags"
  end.

(** *** [clear_tag_data], [start_reading], [stop_reading] *)
Definition clear_tag_data : M unit :=
  assign_TAG_DATA [].

Definition start_reading : M unit :=
  alive <- reader_is_alive ;;
  if alive then
    clear_tag_data ;;
    call_reader startInventory ;;
    ret tt
  else ret tt.

Definition stop_reading : M unit :=
  alive <- reader_is_alive ;;
  if alive then
    call_reader stopPolitely ;;
    ret tt
  else ret tt.

(** *** [handle_event]

    [gpi_event and gpi_event.get("GPIPortNumber") == 1] holds exactly when
    the value under ["GPIEvent"] is a dict whose port number is 1: such a
    dict is not empty, hence true as a condition. *)
Definition on_port_1 (gpi_event : option GPIEventParam) : bool :=
  match gpi_event with
  | Some g =>
      match GPIPortNumber g with
      | Some n => (n =? 1)%Z
      | None => false
      end
  | None => false
  end.

(** The truth value of [gpi_event.get("GPIEvent")]. *)
Definition gpi_flag (gpi_event : option GPIEventParam) : bool :=
  match gpi_event with
  | Some g =>
      match GPIEvent g with
      | Some b => b
      | None => false
      end
  | None => false
  end.

Definition handle_event (event : LLRPEvent) : M unit :=
  match ev_GPIEvent event with
  | Some gpi_event =>
      log INFO "GPI Event" ;;
      if on_port_1 gpi_event then
        if gpi_flag gpi_event then
          alive <- reader_is_alive ;;
          if alive then
            log INFO "Starting inventory via GPI" ;;
            start_reading
          else ret tt
        else
          log INFO "Stopping inventory" ;;
          stop_reading
      else ret tt
  | None => ret tt
  end ;;
  match ev_ConnectionAttemptEvent event with
  | Some _ => log INFO "Connection Event"
  | None => log INFO "Other Event"
  end.

(** *** The HTTP handlers *)

(** [GET /start] *)
Definition start : M json :=
  start_reading ;;
  ret (message "Reading started").

(** [GET /stop] *)
Definition stop : M json :=
  stop_reading ;;
  ret (message "Reading stopped").

(** [GET /start-stop], up to and including its [await asyncio.sleep(1)]. *)
Definition start_stop_begin : M unit :=
  start_reading ;;
  sleep 1000.

(** [GET /start-stop], from the moment the sleep is over. *)
Definition start_stop_end : M json :=
  stop_reading ;;
  ret JNull.

(** [GET /start-stop] when nothing else runs during its sleep. *)
Definition start_stop : M json :=
  start_stop_begin ;;
  start_stop_end.

(** [GET /last-read] *)
Definition get_tags : M json :=
  tag_data <- gets TAG_DATA ;;
  ret (tags_message (map model_dump tag_data)).

(** [GET /status] *)
Definition status : M json :=
  reader <- gets READER ;;
  match reader with
  | None => raise AttributeError
  | Some r => ret (JObj [("status"%string, JBool (is_alive r))])
  end.

(** [GET /state] *)
Definition is_reading : M json :=
  reader <- gets READER ;;
  match reader with
  | None => raise AttributeError
  | Some r =>
      let name := getStateName (llrp_state r) in
      reader' <- gets READER ;;
      match reader' with
      | None => raise AttributeError
      | Some r' =>
          ret (JObj [("state"%string, JStr name);
                     ("code"%string, JInt (llrp_state r'))])
      end
  end.

(** [GET /clear] *)
Definition clear : M json :=
  clear_tag_data ;;
  ret (message "Tag data cleared").

(** *** [websocket_endpoint] *)

(** The handler up to its first [receive_text]; [accept_failure] is the
    exception with which [await websocket.accept()] ended, if any. *)
Definition websocket_open (websocket : WebSocket) (accept_failure : option exn)
  : M unit :=
  log INFO "New WebSocket connection attempt" ;;
  emit (EvAccept websocket) ;;
  match accept_failure with
  | Some e => raise e
  | None =>
      log INFO "WebSocket connection accepted" ;;
      connections_append websocket
  end.

Definition receive_text (o : RecvOutcome) : M string :=
  match o with
  | RecvText text => ret text
  | RecvRaises e => raise e
  end.

(** One [await websocket.receive_text()] of the [while True] loop, with the
    [except] clauses around the loop.  The answer says whether the handler
    is still in its loop ([true]) or has returned ([false]). *)
Definition websocket_receive (websocket : WebSocket) (o : RecvOutcome) : M bool :=
  try_except
    (receive_text o ;; ret true)
    [ (isinstance_WebSocketDisconnect,
       fun _ =>
         log INFO "WebSocket disconnected" ;;
         connections_remove websocket ;;
         ret false);
      (isinstance_Exception,
       fun _ =>
         log ERROR "WebSocket error" ;;
         present <- gets (fun st => contains websocket (ACTIVE_CONNECTIONS st)) ;;
         (if present then connections_remove websocket else ret tt) ;;
         ret false) ].

Fixpoint receive_loop (websocket : WebSocket) (outcomes : list RecvOutcome)
  : M unit :=
  match outcomes with
  | [] => ret tt
  | o :: rest =>
      again <- websocket_receive websocket o ;;
      if again then receive_loop websocket rest else ret tt
  end.

(** The whole handler, when nothing else runs while it waits; it is
    followed for as long as [outcomes] lasts. *)
Definition websocket_endpoint (websocket : WebSocket)
    (accept_failure : option exn) (outcomes : list RecvOutcome) : M unit :=
  websocket_open websocket accept_failure ;;
  receive_loop websocket outcomes.

(** *** [process_queue] *)

Definition send_json (connection : WebSocket) (msg : json) (o : SendOutcome)
  : M unit :=
  match o with
  | Sent => emit (EvSendJson connection msg None)
  | SendRaises e => emit (EvSendJson connection msg (Some e)) ;; raise e
  end.

(** The body of [for connection in ACTIVE_CONNECTIONS[:]]. *)
Definition send_tags (tags : list json) (connection : WebSocket) (o : SendOutcome)
  : M unit :=
  try_except
    (send_json connection (tags_message tags) o ;;
     log INFO "Sent tags to websocket connection")
    [ (isinstance_Exception,
       fun _ =>
         log ERROR "Error sending to websocket" ;;
         connections_remove connection) ].

(** The head of one round of [while True]: the test of the queue and, when
    it is not empty, [TAG_QUEUE.get()] and the copy of the connection list
    that the [for] loop walks. *)
Definition poll_queue : M (option (list json * list WebSocket)) :=
  queue <- gets TAG_QUEUE ;;
  match queue with
  | [] => ret None
  | tags :: rest =>
      modify (set_TAG_QUEUE rest) ;;
      log INFO "Processing tags from queue" ;;
      connections <- gets ACTIVE_CONNECTIONS ;;
      ret (Some (tags, connections))
  end.

(** One round of [while True], when nothing else runs during its awaits;
    [outcome] tells how the send to each connection ends. *)
Definition process_queue_iteration (outcome : WebSocket -> SendOutcome) : M unit :=
  polled <- poll_queue ;;
  match polled with
  | Some (tags, connections) =>
      for_each connections (fun connection => send_tags tags connection (outcome connection))
  | None => ret tt
  end ;;
  sleep 100.

(** [process_queue], followed for one round per element of [outcomes]. *)
Fixpoint process_queue (outcomes : list (WebSocket -> SendOutcome)) : M unit :=
  match outcomes with
  | [] => ret tt
  | outcome :: rest =>
      process_queue_iteration outcome ;;
      process_queue rest
  end.

(** *** [lifespan] *)

Definition lifespan_config : LLRPReaderConfig :=
  {| reset_on_connect := true;
     start_inventory := false;
     event_selector := [("GPIEvent"%string, true)] |}.

Definition PORT : Z := LLRP_DEFAULT_PORT.

(** The [try] block of [lifespan] up to its [yield]. *)
Definition lifespan_enter : M unit :=
  match new_client READER_IP PORT lifespan_config with
  | Raise e => raise e
  | Ok r =>
      modify (set_READER (Some r)) ;;
      call_reader add_tag_report_callback ;;
      call_reader add_event_callback ;;
      call_reader connect ;;
      log INFO "RFID Reader initialized during startup"
  end.

(** The [finally] block of [lifespan]. *)
Definition lifespan_cleanup : M unit :=
  alive <- reader_is_alive ;;
  if alive then
    try_except
      (call_reader stopPolitely ;;
       call_reader disconnect ;;
       log INFO "RFID Reader disconnected during shutdown")
      [ (isinstance_Exception, fun _ => log ERROR "Error during reader shutdown") ]
  else ret tt.

(** Startup of the application: when the [try] block raises before its
    [yield], the [finally] block runs and the exception goes on. *)
Definition lifespan_startup : M unit :=
  fun st =>
    match lifespan_enter st with
    | (Ok a, st') => (Ok a, st')
    | (Raise e, st') => try_finally (raise e) lifespan_cleanup st'
    end.

(** Shutdown of the application: the rest of the [try] block, whose only
    statement cancels the polling task, and the [finally] block. *)
Definition lifespan_shutdown : M unit :=
  try_finally (ret tt) lifespan_cleanup.

End Code.

(** ** The running service

    The handlers and the polling task are coroutines of one event loop: a
    coroutine runs alone from one [await] to the next, and at an [await]
    the others may run.  A state of the service is the state of the module
    together with the position of every coroutine that is suspended at an
    [await]; an action runs one piece of code between two awaits.  The
    polling task may in addition be overtaken between taking an item and
    its first send, which only adds interleavings.  The callbacks run on
    the thread of the reader client; each invocation is an action of its
    own. *)

Section Service.

Context {R : Type} {client : LLRPReaderClient R}.

(** Where [process_queue] stands. *)
Inductive Poller : Type :=
| Polling
    (* about to test the queue: just created, or in [asyncio.sleep(0.1)] *)
| Sending (tags : list json) (pending : list WebSocket)
    (* in the [for] loop with the item [tags]; [pending] is what is left
       to walk of the copy of [ACTIVE_CONNECTIONS] *)
| Stopped (e : exn).
    (* ended by an exception *)

Record System : Type := mkSystem {
  globals : @State R;
  poller : Poller;
  receiving : list WebSocket;   (* handlers of [/ws] waiting in [receive_text] *)
  sleeping : nat                (* handlers of [/start-stop] in their sleep *)
}.

Inductive Request : Type :=
| GET_start
| GET_stop
| GET_last_read
| GET_status
| GET_state
| GET_clear.

Inductive Action : Type :=
| Http (req : Request)
| StartStopBegin
| StartStopEnd
| WsOpen (ws : WebSocket) (accept_failure : option exn)
| WsReceive (ws : WebSocket) (o : RecvOutcome)
| PollerStep (o : SendOutcome)
| OnTagReport (tag_reports : list TagReport)
| OnReaderEvent (event : LLRPEvent)
| ReaderChange (r : R).        (* the reader's own thread changes the client *)

(** The route table. *)
Definition handler (req : Request) : @M R json :=
  match req with
  | GET_start => start
  | GET_stop => stop
  | GET_last_read => get_tags
  | GET_status => status
  | GET_state => is_reading
  | GET_clear => clear
  end.

Definition pending_of (p : Poller) : list WebSocket :=
  match p with
  | Sending _ pending => pending
  | _ => []
  end.

(** A new connection is a new object: no reference to it exists yet. *)
Definition fresh (ws : WebSocket) (s : System) : bool :=
  negb (contains ws (ACTIVE_CONNECTIONS (globals s)))
  && negb (contains ws (receiving s))
  && negb (contains ws (pending_of (poller s))).

Definition drop (ws : WebSocket) (l : list WebSocket) : list WebSocket :=
  match list_remove ws l with
  | Some l' => l'
  | None => l
  end.

(** The polling task from one await to the next. *)
Definition poller_step (o : SendOutcome) (s : System) : option System :=
  match poller s with
  | Polling =>
      match poll_queue (globals s) with
      | (Ok (Some (tags, connections)), st) =>
          Some (mkSystem st (Sending tags connections) (receiving s) (sleeping s))
      | (Ok None, st) =>
          Some (mkSystem (snd (sleep 100 st)) Polling (receiving s) (sleeping s))
      | (Raise e, st) =>
          Some (mkSystem st (Stopped e) (receiving s) (sleeping s))
      end
  | Sending tags [] =>
      Some (mkSystem (snd (sleep 100 (globals s))) Polling (receiving s) (sleeping s))
  | Sending tags (connection :: pending) =>
      match send_tags tags connection o (globals s) with
      | (Ok _, st) => Some (mkSystem st (Sending tags pending) (receiving s) (sleeping s))
      | (Raise e, st) => Some (mkSystem st (Stopped e) (receiving s) (sleeping s))
      end
  | Stopped _ => None
  end.

(** One action of the service; [None] when the action cannot happen in
    this state.  A handler that raises leaves its mutations behind. *)
Definition step (a : Action) (s : System) : option System :=
  match a with
  | Http req =>
      Some (mkSystem (snd (handler req (globals s))) (poller s) (receiving s) (sleeping s))
  | StartStopBegin =>
      match start_stop_begin (globals s) with
      | (Ok _, st) => Some (mkSystem st (poller s) (receiving s) (S (sleeping s)))
      | (Raise _, st) => Some (mkSystem st (poller s) (receiving s) (sleeping s))
      end
  | StartStopEnd =>
      match sleeping s with
      | O => None
      | S n => Some (mkSystem (snd (start_stop_end (globals s))) (poller s) (receiving s) n)
      end
  | WsOpen ws accept_failure =>
      if fresh ws s then
        match websocket_open ws accept_failure (globals s) with
        | (Ok _, st) => Some (mkSystem st (poller s) (receiving s ++ [ws]) (sleeping s))
        | (Raise _, st) => Some (mkSystem st (poller s) (receiving s) (sleeping s))
        end
      else None
  | WsReceive ws o =>
      if contains ws (receiving s) then
        match websocket_receive ws o (globals s) with
        | (Ok true, st) => Some (mkSystem st (poller s) (receiving s) (sleeping s))
        | (_, st) => Some (mkSystem st (poller s) (drop ws (receiving s)) (sleeping s))
        end
      else None
  | PollerStep o => poller_step o s
  | OnTagReport tag_reports =>
      Some (mkSystem (snd (tag_report_cb tag_reports (globals s)))
                     (poller s) (receiving s) (sleeping s))
  | OnReaderEvent event =>
      Some (mkSystem (snd (handle_event event (globals s)))
                     (poller s) (receiving s) (sleeping s))
  | ReaderChange r =>
      match READER (globals s) with
      | Some _ => Some (mkSystem (set_READER (Some r) (globals s))
                                 (poller s) (receiving s) (sleeping s))
      | None => None
      end
  end.

Fixpoint run (actions : list Action) (s : System) : option System :=
  match actions with
  | [] => Some s
  | a :: rest =>
      match step a s with
      | Some s' => run rest s'
      | None => None
      end
  end.

(** The actions of the polling task during one round in which it takes an
    item and walks [connections]: the poll, one send per connection, and
    the step into the sleep. *)
Definition round_actions (outcome : WebSocket -> SendOutcome)
    (connections : list WebSocket) : list Action :=
  PollerStep Sent
  :: map (fun c => PollerStep (outcome c)) connections
  ++ [PollerStep Sent].

(** The service starts serving when [lifespan] reaches its [yield]: the
    polling task has been created and no request has been handled. *)
Definition boot : option System :=
  match lifespan_startup module_init with
  | (Ok _, st) => Some (mkSystem st Polling [] 0)
  | (Raise _, _) => None
  end.

(** The states the running service can be in. *)
Definition reachable (s : System) : Prop :=
  exists s0 actions, boot = Some s0 /\ run actions s0 = Some s.

(** The JSON messages sent so far on connection [ws]. *)
Fixpoint sent_on (ws : WebSocket) (tr : list Event) : list json :=
  match tr with
  | [] => []
  | EvSendJson ws' msg _ :: tr' =>
      if Nat.eqb ws ws' then msg :: sent_on ws tr' else sent_on ws tr'
  | _ :: tr' => sent_on ws tr'
  end.

(** The trace without its log entries. *)
Fixpoint effects (tr : list Event) : list Event :=
  match tr with
  | [] => []
  | EvLog _ _ :: tr' => effects tr'
  | e :: tr' => e :: effects tr'
  end.

End Service.

(** ** A stand-in reader client, to run the model on examples *)

(** A client reduced to what the script can observe of it. *)
Record SimReader : Type := mkSimReader {
  sim_alive : bool;
  sim_state : Z
}.

Definition sim_invoke (m : ReaderMethod) (r : SimReader) : option exn * SimReader :=
  match m with
  | connect => (None, mkSimReader true 3)
  | disconnect => (None, mkSimReader false 1)
  | startInventory => (None, mkSimReader (sim_alive r) 6)
  | stopPolitely => (None, mkSimReader (sim_alive r) 3)
  | _ => (None, r)
  end.

Definition sim_state_name (code : Z) : string :=
  match code with
  | 1%Z => "DISCONNECTED"%string
  | 3%Z => "CONNECTED"%string
  | 6%Z => "INVENTORYING"%string
  | _ => "UNKNOWN"%string
  end.

#[local] Instance sim_client : LLRPReaderClient SimReader := {|
  LLRP_DEFAULT_PORT := 5084;
  new_client := fun _ _ _ => Ok (mkSimReader false 1);
  is_alive := sim_alive;
  llrp_state := sim_state;
  getStateName := sim_state_name;
  invoke := sim_invoke
|}.

(** The report of one tag whose EPC is the two bytes ["A1"]. *)
Definition demo_report : TagReport :=
  mkTagReport [x41; x31] 7 1000 2.

(** A report whose EPC holds a byte that is not ASCII. *)
Definition demo_report_binary : TagReport :=
  mkTagReport [xff] 7 1000 2.

Definition demo_tag : RFIDTag :=
  mkRFIDTag "A1" 7 1000 2.

(** The stand-in service once it serves. *)
Definition demo_boot : @System SimReader :=
  mkSystem
    (mkState (Some (mkSimReader true 3)) [] [] []
       [EvReaderCall add_tag_report_callback;
        EvReaderCall add_event_callback;
        EvReaderCall connect;
        EvLog INFO "RFID Reader initialized during startup"])
    Polling [] 0.

Definition demo_tag_b : RFIDTag :=
  mkRFIDTag "B2" 3 2000 1.

(** The module with a live reader, two connections and two queued items. *)
Definition demo_two_items : @State SimReader :=
  mkState (Some (mkSimReader true 3)) [demo_tag_b]
          [[model_dump demo_tag]; [model_dump demo_tag_b]] [1; 2] [].

(** The module before [lifespan] has run, holding one tag. *)
Definition demo_no_reader : @State SimReader :=
  mkState None [demo_tag] [] [] [].

(** The actions that bring the stand-in service to a state where two
    connections are open and the polling loop has taken an item and is
    about to send it to the first connection. *)
Definition demo_actions_sending : list (@Action SimReader) :=
  [WsOpen 1 None; WsOpen 2 None; OnTagReport [demo_report]; PollerStep Sent].

Definition demo_sending : @System SimReader :=
  mkSystem
    (mkState (Some (mkSimReader true 3)) [demo_tag] [] [1; 2]
       (trace (globals demo_boot)
        ++ [EvLog INFO "New WebSocket connection attempt";
            EvAccept 1;
            EvLog INFO "WebSocket connection accepted";
            EvLog INFO "New WebSocket connection attempt";
            EvAccept 2;
            EvLog INFO "WebSocket connection accepted";
            EvAssignTagData [demo_tag];
            EvLog INFO "Received tags";
            EvLog INFO "Processing tags from queue"]))
    (Sending [model_dump demo_tag] [1; 2]) [1; 2] 0.

(** The same service one step later: the item has gone to connection 1. *)
Definition demo_sent_once : @System SimReader :=
  mkSystem
    (mkState (Some (mkSimReader true 3)) [demo_tag] [] [1; 2]
       (trace (globals demo_sending)
        ++ [EvSendJson 1 (tags_message [model_dump demo_tag]) None;
            EvLog INFO "Sent tags to websocket connection"]))
    (Sending [model_dump demo_tag] [2]) [1; 2] 0.

(** Connection 1 fails, every other connection takes the message. *)
Definition demo_outcome (connection : WebSocket) : SendOutcome :=
  if Nat.eqb connection 1 then SendRaises OtherException else Sent.

(** A GPI event of port [port] with flag [flag], and an event without GPI
    event. *)
Definition demo_gpi (port : Z) (flag : bool) : LLRPEvent :=
  mkLLRPEvent (Some (Some (mkGPIEventParam (Some port) (Some flag)))) None.

Definition demo_connection_event : LLRPEvent :=
  mkLLRPEvent None (Some JNull).

(** ** Vocabulary of the properties *)

Definition ascii_bytes (bs : list byte) : bool :=
  forallb (fun b => (Byte.to_N b <? 128)%N) bs.

(** What the specification calls the record translated from a report. *)
Definition translates (report : TagReport) (tag : RFIDTag) : Prop :=
  decode_ascii (EPC report) = Some (epc tag)
  /\ channel tag = ChannelIndex report
  /\ last_seen tag = LastSeenTimestampUTC report
  /\ seen_count tag = TagSeenCount report.

Section Vocabulary.

Context {R : Type} {client : LLRPReaderClient R}.

(** The reader client is absent, or it is there and not alive. *)
Definition reader_down (st : @State R) : Prop :=
  READER st = None \/ exists r, READER st = Some r /\ is_alive r = false.

(** What can be observed of a state of the module when the log is left
    aside: the four globals and the effects on the outside world. *)
Definition observable (st : @State R)
  : option R * list RFIDTag * list (list json) * list WebSocket * list Event :=
  (READER st, TAG_DATA st, TAG_QUEUE st, ACTIVE_CONNECTIONS st, effects (trace st)).

(** The state of the module after the tag-report callback has been invoked
    on each batch in turn; an invocation that raises is over and the next
    one finds the state it left. *)
Definition deliver (batches : list (list TagReport)) (st : @State R) : @State R :=
  fold_left (fun st' batch => snd (tag_report_cb batch st')) batches st.

(** How a send that ended as [o] shows in the trace. *)
Definition failure_of (o : SendOutcome) : option exn :=
  match o with
  | Sent => None
  | SendRaises e => Some e
  end.

(** The exception of [o], if any, is one that [except Exception] catches. *)
Definition caught (o : SendOutcome) : bool :=
  match o with
  | Sent => true
  | SendRaises e => isinstance_Exception e
  end.

(** A queue item as the tag-report callback makes them: the dumps of the
    tags of one batch. *)
Definition serialized (item : list json) : Prop :=
  exists tags : list RFIDTag, item = map model_dump tags.

(** A message of the shape [{"tags": [...]}] that carries one such item. *)
Definition tags_shaped (msg : json) : Prop :=
  exists tags : list RFIDTag, msg = tags_message (map model_dump tags).

(** Every message sent in this trace entry, if it is a send, has that shape. *)
Definition sends_tags (e : Event) : Prop :=
  match e with
  | EvSendJson _ msg _ => tags_shaped msg
  | _ => True
  end.

(** What holds of the module in every state of the running service. *)
Record app_ok (st : @State R) : Prop := mk_app_ok {
  ok_reader : READER st <> None;
  ok_connections : NoDup (ACTIVE_CONNECTIONS st);
  ok_queue : Forall serialized (TAG_QUEUE st);
  ok_trace : Forall sends_tags (trace st)
}.

(** What holds of the running service in every state. *)
Record invariant (s : @System R) : Prop := mk_invariant {
  inv_app : app_ok (globals s);
  inv_receiving : NoDup (receiving s);
  inv_poller :
    match poller s with
    | Sending tags _ => serialized tags
    | _ => True
    end
}.

(** A computation keeps a property of the module, also when it raises. *)
Definition preserves (P : @State R -> Prop) {A : Type} (m : @M R A) : Prop :=
  forall st, P st -> P (snd (m st)).

End Vocabulary.

(** ** Vocabulary of the further properties *)

(** The send ended without an exception. *)
Definition delivered (o : SendOutcome) : bool :=
  match o with
  | Sent => true
  | SendRaises _ => false
  end.

(** The connections of a list whose send is delivered, in their order. *)
Definition survivors (outcome : WebSocket -> SendOutcome)
    (connections : list WebSocket) : list WebSocket :=
  filter (fun c => delivered (outcome c)) connections.

(** Every send is delivered. *)
Definition all_sent : WebSocket -> SendOutcome :=
  fun _ => Sent.

(** What one round of the polling loop does to the outside world when it
    takes [item] and every send to [connections] is delivered. *)
Definition round_effects (connections : list WebSocket) (item : list json)
  : list Event :=
  map (fun c => EvSendJson c (tags_message item) None) connections
  ++ [EvSleep 100].

(** The queue items that a sequence of report batches gives rise to: one
    per batch that can be translated, none for the others. *)
Definition queued_items (batches : list (list TagReport)) : list (list json) :=
  flat_map
    (fun batch =>
       match tags_of_reports batch with
       | Some tags => [map model_dump tags]
       | None => []
       end)
    batches.

(** A trace entry that is not a send. *)
Definition silent (e : Event) : bool :=
  match e with
  | EvSendJson _ _ _ => false
  | _ => true
  end.

Section FurtherVocabulary.

Context {R : Type} {client : LLRPReaderClient R}.

(** The property of a state of the module that [f] has the value [x] in
    it; [f] is a global, or something read off the trace. *)
Definition frame {X : Type} (f : @State R -> X) (x : X) : @State R -> Prop :=
  fun st => f st = x.

(** The actions in which code runs that names [ACTIVE_CONNECTIONS]. *)
Definition touches_connections (a : @Action R) : bool :=
  match a with
  | WsOpen _ _ | WsReceive _ _ | PollerStep _ => true
  | _ => false
  end.

(** The actions in which code runs that names [TAG_QUEUE]. *)
Definition touches_queue (a : @Action R) : bool :=
  match a with
  | OnTagReport _ | PollerStep _ => true
  | _ => false
  end.

Definition is_poller_step (a : @Action R) : bool :=
  match a with
  | PollerStep _ => true
  | _ => false
  end.

End FurtherVocabulary.

(** A reader client that cannot even be constructed. *)
Definition failing_client : LLRPReaderClient SimReader := {|
  LLRP_DEFAULT_PORT := 5084;
  new_client := fun _ _ _ => Raise OtherException;
  is_alive := sim_alive;
  llrp_state := sim_state;
  getStateName := sim_state_name;
  invoke := sim_invoke
|}.

(** A reader client whose [startInventory] and [stopPolitely] raise. *)
Definition stubborn_invoke (m : ReaderMethod) (r : SimReader)
  : option exn * SimReader :=
  match m with
  | startInventory | stopPolitely => (Some OtherException, r)
  | _ => sim_invoke m r
  end.

Definition stubborn_client : LLRPReaderClient SimReader := {|
  LLRP_DEFAULT_PORT := 5084;
  new_client := fun _ _ _ => Ok (mkSimReader false 1);
  is_alive := sim_alive;
  llrp_state := sim_state;
  getStateName := sim_state_name;
  invoke := stubborn_invoke
|}.

(** The stand-in service when connection 1 has left while the polling loop
    was about to send to it, and the actions that lead there. *)
Definition demo_actions_left : list (@Action SimReader) :=
  [WsOpen 1 None; OnTagReport [demo_report]; PollerStep Sent;
   WsReceive 1 (RecvRaises WebSocketDisconnect)].

Definition demo_left : @System SimReader :=
  mkSystem
    (mkState (Some (mkSimReader true 3)) [demo_tag] [] []
       (trace (globals demo_boot)
        ++ [EvLog INFO "New WebSocket connection attempt";
            EvAccept 1;
            EvLog INFO "WebSocket connection accepted";
            EvAssignTagData [demo_tag];
            EvLog INFO "Received tags";
            EvLog INFO "Processing tags from queue";
            EvLog INFO "WebSocket disconnected"]))
    (Sending [model_dump demo_tag] [1]) [] 0.

(** * Properties *)

(** ** Lists of connections *)

Lemma contains_In (x : WebSocket) (l : list WebSocket) :
  contains x l = true <-> In x l.
Proof.
  induction l as [|y l IH]; simpl.
  - split; [discriminate | tauto].
  - destruct (Nat.eqb_spec x y) as [->|Hne].
    + split; auto.
    + rewrite IH. split; [auto | intros [Heq|H]; [congruence | exact H]].
Qed.

Lemma contains_false (x : WebSocket) (l : list WebSocket) :
  contains x l = false <-> ~ In x l.
Proof.
  rewrite <- contains_In. destruct (contains x l); split; congruence.
Qed.

Lemma list_remove_None (x : WebSocket) (l : list WebSocket) :
  list_remove x l = None <-> ~ In x l.
Proof.
  induction l as [|y l IH]; simpl.
  - tauto.
  - destruct (Nat.eqb_spec x y) as [->|Hne].
    + split; [discriminate | intros H; exfalso; auto].
    + destruct (list_remove x l) eqn:E; simpl.
      * split; [discriminate|]. intros H. exfalso.
        assert (Hn : ~ In x l) by (intros Hin; apply H; auto).
        apply IH in Hn. discriminate.
      * split; [|reflexivity]. intros _ [Heq|Hin]; [congruence|].
        destruct IH as [IH _]. apply IH; auto.
Qed.

Lemma list_remove_In (x : WebSocket) (l : list WebSocket) :
  In x l -> exists l', list_remove x l = Some l'.
Proof.
  intros Hin. destruct (list_remove x l) eqn:E; eauto.
  apply list_remove_None in E. contradiction.
Qed.

Lemma list_remove_other (x y : WebSocket) (l l' : list WebSocket) :
  list_remove x l = Some l' -> y <> x -> (In y l' <-> In y l).
Proof.
  revert l'. induction l as [|z l IH]; simpl; intros l' H Hne.
  - discriminate.
  - destruct (Nat.eqb_spec x z) as [->|Hxz].
    + inversion H; subst. split; [auto | intros [Heq|Hin]; [congruence | exact Hin]].
    + destruct (list_remove x l) as [l0|] eqn:E; simpl in H; [|discriminate].
      inversion H; subst. simpl. rewrite (IH l0 eq_refl Hne). tauto.
Qed.

Lemma list_remove_incl (x y : WebSocket) (l l' : list WebSocket) :
  list_remove x l = Some l' -> In y l' -> In y l.
Proof.
  revert l'. induction l as [|z l IH]; simpl; intros l' H Hin.
  - discriminate.
  - destruct (Nat.eqb_spec x z) as [->|Hxz].
    + inversion H; subst. auto.
    + destruct (list_remove x l) as [l0|] eqn:E; simpl in H; [|discriminate].
      inversion H; subst. destruct Hin as [Heq|Hin]; [auto | right; eauto].
Qed.

Lemma list_remove_NoDup (x : WebSocket) (l l' : list WebSocket) :
  NoDup l -> list_remove x l = Some l' -> NoDup l' /\ ~ In x l'.
Proof.
  revert l'. induction l as [|z l IH]; simpl; intros l' Hnd H.
  - discriminate.
  - inversion Hnd as [|? ? Hz Hl]; subst.
    destruct (Nat.eqb_spec x z) as [->|Hxz].
    + inversion H; subst. auto.
    + destruct (list_remove x l) as [l0|] eqn:E; simpl in H; [|discriminate].
      inversion H; subst. destruct (IH l0 Hl eq_refl) as [Hnd0 Hx0].
      split.
      * constructor; [|exact Hnd0]. intros Hin. apply Hz.
        eapply list_remove_incl; eauto.
      * intros [Heq|Hin]; [congruence | auto].
Qed.

Lemma drop_NoDup (x : WebSocket) (l : list WebSocket) :
  NoDup l -> NoDup (drop x l) /\ ~ In x (drop x l).
Proof.
  intros Hnd. unfold drop. destruct (list_remove x l) as [l'|] eqn:E.
  - eapply list_remove_NoDup; eauto.
  - split; [exact Hnd | now apply list_remove_None].
Qed.

Lemma NoDup_snoc (x : WebSocket) (l : list WebSocket) :
  NoDup l -> ~ In x l -> NoDup (l ++ [x]).
Proof.
  induction l as [|y l IH]; simpl; intros Hnd Hx.
  - constructor; [tauto | constructor].
  - inversion Hnd; subst. constructor.
    + rewrite in_app_iff. simpl. intros [H|[H|[]]]; [auto | subst; auto].
    + apply IH; auto.
Qed.

(** ** Traces *)

Lemma effects_app (a b : list Event) :
  effects (a ++ b) = effects a ++ effects b.
Proof.
  induction a as [|e a IH]; simpl; [reflexivity|].
  destruct e; simpl; rewrite IH; reflexivity.
Qed.

Lemma sent_on_app (ws : WebSocket) (a b : list Event) :
  sent_on ws (a ++ b) = sent_on ws a ++ sent_on ws b.
Proof.
  induction a as [|e a IH]; simpl; [reflexivity|].
  destruct e; simpl; try exact IH.
  destruct (Nat.eqb ws ws0); simpl; rewrite IH; reflexivity.
Qed.

(** ** Translation of tag reports *)

Lemma decode_ascii_total (bs : list byte) :
  ascii_bytes bs = true -> exists s, decode_ascii bs = Some s.
Proof.
  induction bs as [|b bs IH]; simpl; intros H.
  - eauto.
  - apply andb_true_iff in H. destruct H as [Hb Hbs].
    rewrite Hb. destruct (IH Hbs) as [s ->]. simpl. eauto.
Qed.

Lemma tags_of_reports_total (batch : list TagReport) :
  (forall report, In report batch -> ascii_bytes (EPC report) = true) ->
  exists tags, tags_of_reports batch = Some tags /\ Forall2 translates batch tags.
Proof.
  induction batch as [|report batch IH]; simpl; intros H.
  - exists []. split; [reflexivity | constructor].
  - destruct (decode_ascii_total (EPC report)) as [s Hs]; [apply H; auto|].
    destruct IH as [tags [Ht HF]]; [intros; apply H; auto|].
    unfold tag_of_report. rewrite Hs, Ht. simpl.
    eexists. split; [reflexivity|].
    constructor; [|exact HF]. unfold translates. simpl. auto.
Qed.

(** Closes an equation between traces, or between observable states, once
    the code has been run. *)
Ltac trace_eq :=
  unfold observable; simpl;
  repeat (rewrite effects_app; simpl);
  rewrite <- ?app_assoc; simpl; rewrite ?app_nil_r;
  reflexivity.

(** ** The callbacks and the HTTP handlers *)

Section Handlers.

Context {R : Type} {client : LLRPReaderClient R}.

Implicit Types st : @State R.

Lemma reader_down_not_alive st :
  reader_down st -> reader_is_alive st = (Ok false, st).
Proof.
  unfold reader_is_alive, gets.
  intros [H | [r [H Hr]]]; rewrite H; [|rewrite Hr]; reflexivity.
Qed.

Lemma reader_down_flag st :
  reader_down st ->
  match READER st with
  | Some r => is_alive r
  | None => false
  end = false.
Proof.
  intros [H | [r [H Hr]]]; rewrite H; [reflexivity | exact Hr].
Qed.

Lemma start_reading_down st :
  reader_down st -> start_reading st = (Ok tt, st).
Proof.
  intros H. unfold start_reading, bind. rewrite (reader_down_not_alive H).
  reflexivity.
Qed.

Lemma stop_reading_down st :
  reader_down st -> stop_reading st = (Ok tt, st).
Proof.
  intros H. unfold stop_reading, bind. rewrite (reader_down_not_alive H).
  reflexivity.
Qed.

(** What [start_reading] does when the reader is alive, whatever the call
    into the reader client answers. *)
Lemma start_reading_alive st r :
  READER st = Some r -> is_alive r = true ->
  start_reading st =
  ((match fst (invoke startInventory r) with
    | None => Ok tt
    | Some e => Raise e
    end),
   mkState (Some (snd (invoke startInventory r))) [] (TAG_QUEUE st)
           (ACTIVE_CONNECTIONS st)
           ((trace st ++ [EvAssignTagData []]) ++ [EvReaderCall startInventory])).
Proof.
  intros HR Ha.
  unfold start_reading, bind, reader_is_alive, gets. rewrite HR, Ha.
  unfold clear_tag_data, assign_TAG_DATA, modify, call_reader. simpl. rewrite HR.
  destruct (invoke startInventory r) as [[e|] r']; reflexivity.
Qed.

Lemma stop_reading_alive st r :
  READER st = Some r -> is_alive r = true ->
  stop_reading st =
  ((match fst (invoke stopPolitely r) with
    | None => Ok tt
    | Some e => Raise e
    end),
   mkState (Some (snd (invoke stopPolitely r))) (TAG_DATA st) (TAG_QUEUE st)
           (ACTIVE_CONNECTIONS st)
           (trace st ++ [EvReaderCall stopPolitely])).
Proof.
  intros HR Ha.
  unfold stop_reading, bind, reader_is_alive, gets. rewrite HR, Ha.
  unfold call_reader. rewrite HR.
  destruct (invoke stopPolitely r) as [[e|] r']; reflexivity.
Qed.

Lemma reader_down_dec st :
  reader_down st \/ exists r, READER st = Some r /\ is_alive r = true.
Proof.
  unfold reader_down. destruct (READER st) as [r|]; [|auto].
  destruct (is_alive r) eqn:E; [right | left; right]; eauto.
Qed.

Lemma is_reading_with_reader st r :
  READER st = Some r ->
  is_reading st =
  (Ok (JObj [("state"%string, JStr (getStateName (llrp_state r)));
             ("code"%string, JInt (llrp_state r))]), st).
Proof.
  intros HR. unfold is_reading, bind, gets. rewrite HR. simpl. rewrite HR.
  reflexivity.
Qed.

(** C1.  Whenever [start_reading] runs while the reader client exists and
    is alive, the assignment [TAG_DATA = []] comes right before the call of
    [startInventory], and this whether [start_reading] is entered directly,
    through [GET /start], through [GET /start-stop], or from the event
    callback on a GPI event of port 1 with a true flag. *)
Theorem start_reading_clears_before_startInventory st r :
  READER st = Some r -> is_alive r = true ->
  let cleared := [EvAssignTagData []; EvReaderCall startInventory] in
  (trace (snd (start_reading st)) = trace st ++ cleared
   /\ TAG_DATA (snd (start_reading st)) = [])
  /\ trace (snd (start st)) = trace st ++ cleared
  /\ (exists rest, trace (snd (start_stop st)) = trace st ++ cleared ++ rest)
  /\ (forall event g,
        ev_GPIEvent event = Some (Some g) ->
        GPIPortNumber g = Some 1%Z ->
        GPIEvent g = Some true ->
        effects (trace (snd (handle_event event st)))
        = effects (trace st) ++ cleared).
Proof.
  intros HR Ha cleared.
  pose proof (start_reading_alive st HR Ha) as Hs.
  repeat split.
  - rewrite Hs. simpl. rewrite <- app_assoc. reflexivity.
  - rewrite Hs. reflexivity.
  - unfold start, bind. rewrite Hs.
    destruct (fst (invoke startInventory r)); simpl;
      rewrite <- app_assoc; reflexivity.
  - unfold start_stop, start_stop_begin, start_stop_end, bind. rewrite Hs.
    destruct (fst (invoke startInventory r)); simpl.
    + exists []. rewrite <- app_assoc. reflexivity.
    + match goal with
      | |- context [stop_reading ?s] => destruct (stop_reading s) as [[u|e] st2] eqn:E
      end.
      all: match type of E with
           | stop_reading ?s = _ =>
               destruct (reader_down_dec s) as [Hd | [r2 [HR2 Ha2]]];
               [ rewrite (stop_reading_down Hd) in E
               | rewrite (stop_reading_alive s HR2 Ha2) in E ]
           end.
      all: inversion E; subst; simpl.
      all: rewrite <- ?app_assoc; simpl; eexists; reflexivity.
  - intros event g Hev Hport Hflag.
    unfold handle_event, bind, log, emit, modify. rewrite Hev. simpl.
    unfold on_port_1, gpi_flag. rewrite Hport, Hflag. simpl.
    rewrite HR, Ha.
    match goal with
    | |- context [start_reading ?s] =>
        rewrite (@start_reading_alive s r HR Ha)
    end.
    simpl.
    destruct (fst (invoke startInventory r)); simpl;
      destruct (ev_ConnectionAttemptEvent event); trace_eq.
Qed.

(** C8.  While the reader client is absent or not alive, [start_reading]
    and [stop_reading] do nothing at all: the state of the module, trace
    included, is what it was.  [GET /start] and [GET /stop] nevertheless
    answer that reading was started, respectively stopped. *)
Theorem start_and_stop_do_nothing_without_live_reader st :
  reader_down st ->
  start_reading st = (Ok tt, st)
  /\ stop_reading st = (Ok tt, st)
  /\ start st = (Ok (message "Reading started"), st)
  /\ stop st = (Ok (message "Reading stopped"), st).
Proof.
  intros H. repeat split.
  - exact (start_reading_down H).
  - exact (stop_reading_down H).
  - unfold start, bind. rewrite (start_reading_down H). reflexivity.
  - unfold stop, bind. rewrite (stop_reading_down H). reflexivity.
Qed.

(** C9.  With [READER] still [None], [GET /status] and [GET /state] raise
    (the attribute access on [None] fails) and return nothing, while
    [GET /start], [GET /stop], [GET /last-read] and [GET /clear] return
    their usual answers. *)
Theorem status_and_state_raise_without_reader st :
  READER st = None ->
  status st = (Raise AttributeError, st)
  /\ is_reading st = (Raise AttributeError, st)
  /\ start st = (Ok (message "Reading started"), st)
  /\ stop st = (Ok (message "Reading stopped"), st)
  /\ get_tags st = (Ok (tags_message (map model_dump (TAG_DATA st))), st)
  /\ fst (clear st) = Ok (message "Tag data cleared").
Proof.
  intros HR.
  assert (Hd : reader_down st) by (left; exact HR).
  repeat split.
  - unfold status, bind, gets. rewrite HR. reflexivity.
  - unfold is_reading, bind, gets. rewrite HR. reflexivity.
  - unfold start, bind. rewrite (start_reading_down Hd). reflexivity.
  - unfold stop, bind. rewrite (stop_reading_down Hd). reflexivity.
Qed.

Lemma tag_report_cb_translated st batch tags :
  tags_of_reports batch = Some tags ->
  tag_report_cb batch st =
  (Ok tt,
   mkState (READER st) tags (TAG_QUEUE st ++ [map model_dump tags])
           (ACTIVE_CONNECTIONS st)
           ((trace st ++ [EvAssignTagData tags]) ++ [EvLog INFO "Received tags"])).
Proof.
  intros H. unfold tag_report_cb. rewrite H. reflexivity.
Qed.

Lemma tag_report_cb_undecodable st batch :
  tags_of_reports batch = None ->
  tag_report_cb batch st = (Raise UnicodeDecodeError, st).
Proof.
  intros H. unfold tag_report_cb. rewrite H. reflexivity.
Qed.

(** C3.  After any sequence of invocations of the tag-report callback,
    [TAG_DATA] holds exactly the records translated from the batch of the
    last invocation, one per report and in the order of the reports, each
    with the EPC decoded from the report's bytes and with its channel,
    last-seen time and seen count; nothing of the earlier batches is left.
    The EPCs of that last batch are ASCII, as a translation requires. *)
Theorem tag_data_is_latest_batch st (earlier : list (list TagReport))
    (batch : list TagReport) :
  (forall report, In report batch -> ascii_bytes (EPC report) = true) ->
  fst (tag_report_cb batch (deliver earlier st)) = Ok tt
  /\ tags_of_reports batch = Some (TAG_DATA (deliver (earlier ++ [batch]) st))
  /\ Forall2 translates batch (TAG_DATA (deliver (earlier ++ [batch]) st)).
Proof.
  intros Hascii.
  destruct (tags_of_reports_total batch Hascii) as [tags [Ht HF]].
  unfold deliver. rewrite fold_left_app. simpl.
  rewrite (tag_report_cb_translated _ _ Ht). simpl. auto.
Qed.

(** Up to the log, the event callback is [start_reading] on a GPI event of
    port 1 with a true flag, [stop_reading] on one with a false flag, and
    nothing on any other event. *)
Lemma handle_event_as_start_or_stop st event :
  (forall g,
     ev_GPIEvent event = Some (Some g) ->
     GPIPortNumber g = Some 1%Z ->
     GPIEvent g = Some true ->
     observable (snd (handle_event event st)) = observable (snd (start_reading st)))
  /\ (forall g,
        ev_GPIEvent event = Some (Some g) ->
        GPIPortNumber g = Some 1%Z ->
        GPIEvent g = Some false ->
        observable (snd (handle_event event st)) = observable (snd (stop_reading st)))
  /\ ((ev_GPIEvent event = None
       \/ ev_GPIEvent event = Some None
       \/ exists g, ev_GPIEvent event = Some (Some g) /\ GPIPortNumber g <> Some 1%Z) ->
      observable (snd (handle_event event st)) = observable st).
Proof.
  repeat split.
  - intros g Hev Hport Hflag.
    unfold handle_event, bind, log, emit, modify. rewrite Hev. simpl.
    unfold on_port_1, gpi_flag. rewrite Hport, Hflag. simpl.
    destruct (reader_down_dec st) as [Hd | [r [HR Ha]]].
    + rewrite (start_reading_down Hd), (reader_down_flag Hd). simpl.
      destruct (ev_ConnectionAttemptEvent event); trace_eq.
    + rewrite HR, Ha.
      match goal with
      | |- context [start_reading ?s] =>
          rewrite (@start_reading_alive s r HR Ha)
      end.
      rewrite (start_reading_alive st HR Ha). simpl.
      destruct (fst (invoke startInventory r)); simpl;
        destruct (ev_ConnectionAttemptEvent event); trace_eq.
  - intros g Hev Hport Hflag.
    unfold handle_event, bind, log, emit, modify. rewrite Hev. simpl.
    unfold on_port_1, gpi_flag. rewrite Hport, Hflag. simpl.
    destruct (reader_down_dec st) as [Hd | [r [HR Ha]]].
    + rewrite (stop_reading_down Hd).
      match goal with
      | |- context [stop_reading ?s] =>
          assert (Hd' : reader_down s) by exact Hd;
          rewrite (stop_reading_down Hd')
      end.
      simpl.
      destruct (ev_ConnectionAttemptEvent event); trace_eq.
    + match goal with
      | |- context [stop_reading ?s] =>
          match s with
          | st => fail 1
          | _ => rewrite (@stop_reading_alive s r HR Ha)
          end
      end.
      rewrite (stop_reading_alive st HR Ha). simpl.
      destruct (fst (invoke stopPolitely r)); simpl;
        destruct (ev_ConnectionAttemptEvent event); trace_eq.
  - intros Hcase.
    unfold handle_event, bind, log, emit, modify.
    assert (Hskip :
      match ev_GPIEvent event with
      | Some v => on_port_1 v = false
      | None => True
      end).
    { destruct Hcase as [-> | [-> | [g [-> Hport]]]]; simpl; auto.
      destruct (GPIPortNumber g) as [n|]; [|reflexivity].
      apply Z.eqb_neq. congruence. }
    destruct (ev_GPIEvent event) as [v|]; simpl.
    + rewrite Hskip. simpl.
      destruct (ev_ConnectionAttemptEvent event); trace_eq.
    + destruct (ev_ConnectionAttemptEvent event); trace_eq.
Qed.

(** C10.  The event callback acts only on a GPI event of port 1.  With a
    true flag it does what [start_reading] does: the reader being alive,
    [TAG_DATA] is set to the empty list and then [startInventory] is called
    on the reader client, and nothing else happens; the reader being absent
    or not alive, nothing happens.  With a false flag it does what
    [stop_reading] does: the reader being alive, [stopPolitely] is called
    on the reader client and [TAG_DATA] is kept; otherwise nothing happens.
    On a GPI event of another port, and on an event without GPI event,
    [TAG_DATA] and the reader client stay as they are and no call reaches
    the reader client.  (What happens is told up to log entries.) *)
Theorem handle_event_follows_gpi_port_1 st event :
  (forall g,
     ev_GPIEvent event = Some (Some g) ->
     GPIPortNumber g = Some 1%Z ->
     GPIEvent g = Some true ->
     observable (snd (handle_event event st)) = observable (snd (start_reading st))
     /\ (forall r,
           READER st = Some r ->
           is_alive r = true ->
           observable (snd (handle_event event st))
           = (Some (snd (invoke startInventory r)),
              [],
              TAG_QUEUE st,
              ACTIVE_CONNECTIONS st,
              effects (trace st)
              ++ [EvAssignTagData []; EvReaderCall startInventory]))
     /\ (reader_down st ->
         observable (snd (handle_event event st)) = observable st))
  /\ (forall g,
        ev_GPIEvent event = Some (Some g) ->
        GPIPortNumber g = Some 1%Z ->
        GPIEvent g = Some false ->
        observable (snd (handle_event event st)) = observable (snd (stop_reading st))
        /\ (forall r,
              READER st = Some r ->
              is_alive r = true ->
              observable (snd (handle_event event st))
              = (Some (snd (invoke stopPolitely r)),
                 TAG_DATA st,
                 TAG_QUEUE st,
                 ACTIVE_CONNECTIONS st,
                 effects (trace st) ++ [EvReaderCall stopPolitely]))
        /\ (reader_down st ->
            observable (snd (handle_event event st)) = observable st))
  /\ ((ev_GPIEvent event = None
       \/ ev_GPIEvent event = Some None
       \/ exists g, ev_GPIEvent event = Some (Some g) /\ GPIPortNumber g <> Some 1%Z) ->
      observable (snd (handle_event event st)) = observable st).
Proof.
  destruct (handle_event_as_start_or_stop st event) as [Hstart [Hstop Hother]].
  split; [|split; [|exact Hother]].
  - intros g Hev Hport Hflag.
    pose proof (Hstart g Hev Hport Hflag) as Hrel.
    split; [exact Hrel|]. split.
    + intros r HR Ha. rewrite Hrel, (start_reading_alive st HR Ha). trace_eq.
    + intros Hd. rewrite Hrel, (start_reading_down Hd). reflexivity.
  - intros g Hev Hport Hflag.
    pose proof (Hstop g Hev Hport Hflag) as Hrel.
    split; [exact Hrel|]. split.
    + intros r HR Ha. rewrite Hrel, (stop_reading_alive st HR Ha). trace_eq.
    + intros Hd. rewrite Hrel, (stop_reading_down Hd). reflexivity.
Qed.

End Handlers.

(** ** What every piece of code keeps true *)

Section Preservation.

Context {R : Type} {client : LLRPReaderClient R}.

Implicit Types st : @State R.

Variable P : @State R -> Prop.

Lemma preserves_ret {A : Type} (a : A) : preserves P (ret a).
Proof. intros st H. exact H. Qed.

Lemma preserves_raise {A : Type} (e : exn) : preserves P (@raise R A e).
Proof. intros st H. exact H. Qed.

Lemma preserves_gets {A : Type} (f : @State R -> A) : preserves P (gets f).
Proof. intros st H. exact H. Qed.

Lemma preserves_bind {A B : Type} (m : @M R A) (k : A -> @M R B) :
  preserves P m -> (forall a, preserves P (k a)) -> preserves P (bind m k).
Proof.
  intros Hm Hk st H. unfold bind.
  specialize (Hm st H). destruct (m st) as [[a|e] st']; simpl in *.
  - apply Hk. exact Hm.
  - exact Hm.
Qed.

Lemma preserves_select {A : Type} (clauses : list (clause A)) (e : exn)
    (h : @M R A) :
  Forall (fun c => forall e', preserves P (snd c e')) clauses ->
  select_handler clauses e = Some h -> preserves P h.
Proof.
  induction clauses as [|[test handler] rest IH]; simpl; intros HF Hsel.
  - discriminate.
  - inversion HF as [|? ? Hc Hrest]; subst.
    destruct (test e).
    + inversion Hsel; subst. apply Hc.
    + apply IH; assumption.
Qed.

Lemma preserves_try_except {A : Type} (body : @M R A) (clauses : list (clause A)) :
  preserves P body ->
  Forall (fun c => forall e, preserves P (snd c e)) clauses ->
  preserves P (try_except body clauses).
Proof.
  intros Hb Hc st H. unfold try_except.
  specialize (Hb st H). destruct (body st) as [[a|e] st']; simpl in *.
  - exact Hb.
  - destruct (select_handler clauses e) as [h|] eqn:E; simpl.
    + eapply preserves_select; eauto.
    + exact Hb.
Qed.

Lemma preserves_try_finally {A : Type} (body : @M R A) (cleanup : @M R unit) :
  preserves P body -> preserves P cleanup -> preserves P (try_finally body cleanup).
Proof.
  intros Hb Hc st H. unfold try_finally.
  specialize (Hb st H). destruct (body st) as [r st']; simpl in *.
  specialize (Hc st' Hb). destruct (cleanup st') as [[u|e] st'']; exact Hc.
Qed.

Lemma preserves_for_each {A : Type} (l : list A) (body : A -> @M R unit) :
  (forall x, preserves P (body x)) -> preserves P (for_each l body).
Proof.
  intros Hb. induction l as [|x l IH]; simpl.
  - apply preserves_ret.
  - apply preserves_bind; auto.
Qed.

End Preservation.

(** ** The invariant of the running service *)

Create HintDb keeps discriminated.

Section Invariant.

Context {R : Type} {client : LLRPReaderClient R}.

Implicit Types st : @State R.
Implicit Types s : @System R.

Lemma emit_ok (e : Event) : sends_tags e -> preserves (@app_ok R) (emit e).
Proof.
  intros He st [H1 H2 H3 H4]. constructor; simpl; auto.
  apply Forall_app. split; [exact H4 | constructor; [exact He | constructor]].
Qed.

Lemma log_ok (lvl : LogLevel) (msg : string) : preserves (@app_ok R) (log lvl msg).
Proof. apply emit_ok. exact I. Qed.

Lemma sleep_ok (ms : Z) : preserves (@app_ok R) (sleep ms).
Proof. apply emit_ok. exact I. Qed.

Lemma assign_TAG_DATA_ok (tags : list RFIDTag) :
  preserves (@app_ok R) (assign_TAG_DATA tags).
Proof.
  intros st [H1 H2 H3 H4]. constructor; simpl; auto.
  apply Forall_app. split; [exact H4 | repeat constructor].
Qed.

Lemma call_reader_ok (m : ReaderMethod) : preserves (@app_ok R) (call_reader m).
Proof.
  intros st [H1 H2 H3 H4]. unfold call_reader.
  destruct (READER st) as [r|]; [|contradiction].
  destruct (invoke m r) as [[e|] r']; constructor; simpl; auto;
    try discriminate;
    apply Forall_app; (split; [exact H4 | repeat constructor]).
Qed.

Lemma reader_is_alive_ok : preserves (@app_ok R) reader_is_alive.
Proof. apply preserves_gets. Qed.

Lemma queue_put_ok (item : list json) :
  serialized item -> preserves (@app_ok R) (queue_put item).
Proof.
  intros Hi st [H1 H2 H3 H4]. constructor; simpl; auto.
  apply Forall_app. split; [exact H3 | constructor; [exact Hi | constructor]].
Qed.

Lemma connections_remove_ok (ws : WebSocket) :
  preserves (@app_ok R) (connections_remove ws).
Proof.
  intros st [H1 H2 H3 H4]. unfold connections_remove.
  destruct (list_remove ws (ACTIVE_CONNECTIONS st)) as [l|] eqn:E; simpl.
  - constructor; simpl; auto. eapply list_remove_NoDup; eauto.
  - constructor; auto.
Qed.

Lemma send_json_ok (connection : WebSocket) (tags : list json) (o : SendOutcome) :
  serialized tags ->
  preserves (@app_ok R) (send_json connection (tags_message tags) o).
Proof.
  intros [batch ->]. unfold send_json.
  assert (Hs : forall f, sends_tags
            (EvSendJson connection (tags_message (map model_dump batch)) f))
    by (intros f; exists batch; reflexivity).
  destruct o.
  - apply emit_ok, Hs.
  - apply preserves_bind; [apply emit_ok, Hs | intros; apply preserves_raise].
Qed.

Hint Resolve log_ok sleep_ok assign_TAG_DATA_ok call_reader_ok
  reader_is_alive_ok connections_remove_ok : keeps.

(** Walks through a piece of code along its binds, branches and handlers. *)
Ltac keeps :=
  repeat first
    [ apply preserves_ret
    | apply preserves_raise
    | apply preserves_gets
    | solve [auto with keeps]
    | apply preserves_bind; [|intro]
    | apply preserves_try_except;
      [|repeat (apply Forall_cons; [simpl; intro|]); try apply Forall_nil]
    | apply preserves_for_each; intro
    | match goal with
      | |- preserves _ (if ?b then _ else _) => destruct b
      | |- preserves _ (match ?x with _ => _ end) => destruct x
      end ].

Lemma clear_tag_data_ok : preserves (@app_ok R) clear_tag_data.
Proof. unfold clear_tag_data. keeps. Qed.

Lemma start_reading_ok : preserves (@app_ok R) start_reading.
Proof. unfold start_reading, clear_tag_data. keeps. Qed.

Lemma stop_reading_ok : preserves (@app_ok R) stop_reading.
Proof. unfold stop_reading. keeps. Qed.

Hint Resolve clear_tag_data_ok start_reading_ok stop_reading_ok : keeps.

Lemma tag_report_cb_ok (tag_reports : list TagReport) :
  preserves (@app_ok R) (tag_report_cb tag_reports).
Proof.
  unfold tag_report_cb. keeps.
  apply queue_put_ok. eexists. reflexivity.
Qed.

Lemma handle_event_ok (event : LLRPEvent) : preserves (@app_ok R) (handle_event event).
Proof. unfold handle_event. keeps. Qed.

Lemma handler_ok (req : Request) : preserves (@app_ok R) (handler req).
Proof.
  destruct req; simpl;
    unfold start, stop, get_tags, status, is_reading, clear; keeps.
Qed.

Lemma start_stop_begin_ok : preserves (@app_ok R) start_stop_begin.
Proof. unfold start_stop_begin. keeps. Qed.

Lemma start_stop_end_ok : preserves (@app_ok R) start_stop_end.
Proof. unfold start_stop_end. keeps. Qed.

Lemma websocket_receive_ok (ws : WebSocket) (o : RecvOutcome) :
  preserves (@app_ok R) (websocket_receive ws o).
Proof. unfold websocket_receive, receive_text. keeps. Qed.

Lemma send_tags_ok (tags : list json) (connection : WebSocket) (o : SendOutcome) :
  serialized tags -> preserves (@app_ok R) (send_tags tags connection o).
Proof.
  intros Hs. unfold send_tags. keeps.
  apply send_json_ok. exact Hs.
Qed.

Lemma websocket_open_ok (ws : WebSocket) (accept_failure : option exn) st :
  app_ok st -> ~ In ws (ACTIVE_CONNECTIONS st) ->
  app_ok (snd (websocket_open ws accept_failure st)).
Proof.
  intros [H1 H2 H3 H4] Hfresh.
  destruct accept_failure as [e|]; constructor; simpl; auto.
  - repeat (apply Forall_app; split; [|repeat constructor]). exact H4.
  - apply NoDup_snoc; assumption.
  - repeat (apply Forall_app; split; [|repeat constructor]). exact H4.
Qed.

Lemma poll_queue_ok st :
  app_ok st ->
  app_ok (snd (poll_queue st))
  /\ match fst (poll_queue st) with
     | Ok (Some (tags, _)) => serialized tags
     | _ => True
     end.
Proof.
  intros [H1 H2 H3 H4]. unfold poll_queue, bind, gets. simpl.
  destruct (TAG_QUEUE st) as [|tags rest] eqn:E; simpl.
  - split; [constructor; auto; rewrite E; constructor | exact I].
  - inversion H3; subst. split; [|assumption].
    constructor; simpl; auto.
    apply Forall_app. split; [exact H4 | repeat constructor].
Qed.

Lemma lifespan_enter_ok st' (u : unit) :
  lifespan_enter module_init = (Ok u, st') -> app_ok st'.
Proof.
  unfold lifespan_enter.
  destruct (new_client READER_IP PORT lifespan_config) as [r|e];
    [|discriminate].
  intros H.
  assert (Hrest : preserves (@app_ok R)
            (call_reader add_tag_report_callback ;;
             call_reader add_event_callback ;;
             call_reader connect ;;
             log INFO "RFID Reader initialized during startup"))
    by keeps.
  assert (H0 : app_ok (set_READER (Some r) (@module_init R))).
  { constructor; simpl; try constructor. discriminate. }
  specialize (Hrest _ H0).
  unfold bind at 1 in H. simpl in H. rewrite H in Hrest. exact Hrest.
Qed.

Lemma boot_invariant s : boot = Some s -> invariant s.
Proof.
  unfold boot, lifespan_startup.
  destruct (lifespan_enter module_init) as [[u|e] st] eqn:E.
  - intros H. inversion H; subst. constructor; simpl.
    + eapply lifespan_enter_ok; eauto.
    + constructor.
    + exact I.
  - unfold try_finally, raise.
    destruct (lifespan_cleanup st) as [[u|e'] st']; discriminate.
Qed.

Lemma step_invariant (a : Action) s s' :
  invariant s -> step a s = Some s' -> invariant s'.
Proof.
  intros [Happ Hrecv Hpoll] Hstep. destruct a; simpl in Hstep.
  - inversion Hstep; subst. constructor; simpl; auto.
    apply handler_ok. exact Happ.
  - pose proof (start_stop_begin_ok Happ) as H.
    destruct (start_stop_begin (globals s)) as [[u|e] st];
      inversion Hstep; subst; constructor; simpl; auto.
  - destruct (sleeping s); [discriminate|].
    inversion Hstep; subst. constructor; simpl; auto.
    apply start_stop_end_ok. exact Happ.
  - destruct (fresh ws s) eqn:F; [|discriminate].
    unfold fresh in F.
    apply andb_true_iff in F. destruct F as [F F3].
    apply andb_true_iff in F. destruct F as [F1 F2].
    apply negb_true_iff, contains_false in F1.
    apply negb_true_iff, contains_false in F2.
    pose proof (websocket_open_ok ws accept_failure Happ F1) as H.
    destruct (websocket_open ws accept_failure (globals s)) as [[u|e] st];
      inversion Hstep; subst; constructor; simpl; auto.
    apply NoDup_snoc; assumption.
  - destruct (contains ws (receiving s)); [|discriminate].
    pose proof (websocket_receive_ok ws o Happ) as H.
    destruct (websocket_receive ws o (globals s)) as [[[|]|e] st];
      inversion Hstep; subst; constructor; simpl; auto;
      apply drop_NoDup; assumption.
  - unfold poller_step in Hstep.
    destruct (poller s) as [|tags [|connection pending]|e] eqn:Ep.
    + destruct (poll_queue_ok Happ) as [H1 H2].
      destruct (poll_queue (globals s)) as [[[[tags connections]|]|e] st];
        simpl in *; inversion Hstep; subst; constructor; simpl; auto.
      apply sleep_ok. exact H1.
    + inversion Hstep; subst. constructor; simpl; auto.
      apply sleep_ok. exact Happ.
    + pose proof (send_tags_ok connection o Hpoll Happ) as H.
      destruct (send_tags tags connection o (globals s)) as [[u|e] st];
        inversion Hstep; subst; constructor; simpl; auto.
    + discriminate.
  - inversion Hstep; subst. constructor; simpl; auto.
    apply tag_report_cb_ok. exact Happ.
  - inversion Hstep; subst. constructor; simpl; auto.
    apply handle_event_ok. exact Happ.
  - destruct (READER (globals s)); [|discriminate].
    inversion Hstep; subst. constructor; simpl; auto.
    destruct Happ. constructor; simpl; auto. discriminate.
Qed.

Lemma run_invariant (actions : list Action) s s' :
  invariant s -> run actions s = Some s' -> invariant s'.
Proof.
  revert s. induction actions as [|a actions IH]; simpl; intros s Hs Hrun.
  - inversion Hrun; subst. exact Hs.
  - destruct (step a s) as [s1|] eqn:E; [|discriminate].
    eapply IH; [|exact Hrun]. eapply step_invariant; eauto.
Qed.

Lemma reachable_invariant s : reachable s -> invariant s.
Proof.
  intros [s0 [actions [Hboot Hrun]]].
  eapply run_invariant; [|exact Hrun]. apply boot_invariant. exact Hboot.
Qed.

End Invariant.

(** ** The polling loop and the WebSocket handler *)

Section Sockets.

Context {R : Type} {client : LLRPReaderClient R}.

Implicit Types st : @State R.
Implicit Types s : @System R.

Lemma list_remove_count (x : WebSocket) (l l' : list WebSocket) :
  list_remove x l = Some l' ->
  forall y,
    count_occ Nat.eq_dec l y
    = count_occ Nat.eq_dec l' y + (if Nat.eq_dec x y then 1 else 0).
Proof.
  revert l'. induction l as [|z l IH]; simpl; intros l' H y.
  - discriminate.
  - destruct (Nat.eqb_spec x z) as [->|Hxz].
    + inversion H; subst. destruct (Nat.eq_dec z y); lia.
    + destruct (list_remove x l) as [l0|] eqn:E; simpl in H; [|discriminate].
      inversion H; subst. simpl. specialize (IH l0 eq_refl y).
      destruct (Nat.eq_dec z y); lia.
Qed.

Lemma send_tags_sent st (tags : list json) (connection : WebSocket) :
  send_tags tags connection Sent st =
  (Ok tt,
   mkState (READER st) (TAG_DATA st) (TAG_QUEUE st) (ACTIVE_CONNECTIONS st)
     ((trace st ++ [EvSendJson connection (tags_message tags) None])
      ++ [EvLog INFO "Sent tags to websocket connection"])).
Proof. reflexivity. Qed.

Lemma send_tags_failed st (tags : list json) (connection : WebSocket) (e : exn)
    (l : list WebSocket) :
  isinstance_Exception e = true ->
  list_remove connection (ACTIVE_CONNECTIONS st) = Some l ->
  send_tags tags connection (SendRaises e) st =
  (Ok tt,
   mkState (READER st) (TAG_DATA st) (TAG_QUEUE st) l
     ((trace st ++ [EvSendJson connection (tags_message tags) (Some e)])
      ++ [EvLog ERROR "Error sending to websocket"])).
Proof.
  intros He Hl.
  unfold send_tags, try_except, send_json, bind, emit, modify, raise. simpl.
  rewrite He. unfold log, emit, modify, connections_remove. simpl.
  rewrite Hl. reflexivity.
Qed.

(** When the connection is no longer in the list, the handler itself
    raises and the loop is left. *)
Lemma send_tags_failed_absent st (tags : list json) (connection : WebSocket)
    (e : exn) :
  isinstance_Exception e = true ->
  ~ In connection (ACTIVE_CONNECTIONS st) ->
  fst (send_tags tags connection (SendRaises e) st) = Raise ValueError.
Proof.
  intros He Hl. apply list_remove_None in Hl.
  unfold send_tags, try_except, send_json, bind, emit, modify, raise. simpl.
  rewrite He. unfold log, emit, modify, connections_remove. simpl.
  rewrite Hl. reflexivity.
Qed.

(** The [for] loop, run without interruption over a list of connections
    that are all in [ACTIVE_CONNECTIONS], as often as they are walked. *)
Lemma send_loop (tags : list json) (outcome : WebSocket -> SendOutcome)
    (pending : list WebSocket) :
  forall st,
    (forall c, In c pending -> caught (outcome c) = true) ->
    (forall x, count_occ Nat.eq_dec pending x
               <= count_occ Nat.eq_dec (ACTIVE_CONNECTIONS st) x) ->
    let result :=
      for_each pending (fun c => send_tags tags c (outcome c)) st in
    fst result = Ok tt
    /\ TAG_QUEUE (snd result) = TAG_QUEUE st
    /\ effects (trace (snd result))
       = effects (trace st)
         ++ map (fun c => EvSendJson c (tags_message tags) (failure_of (outcome c)))
                pending.
Proof.
  induction pending as [|c pending IH]; intros st Hcaught Hcount; simpl.
  - repeat split. rewrite app_nil_r. reflexivity.
  - unfold bind.
    assert (Hrest : forall c', In c' pending -> caught (outcome c') = true)
      by (intros c' Hc'; apply Hcaught; right; exact Hc').
    assert (Hc : caught (outcome c) = true) by (apply Hcaught; left; reflexivity).
    destruct (outcome c) as [|e] eqn:Eo; simpl in Hc.
    + rewrite send_tags_sent.
      match goal with
      | |- context [for_each pending _ ?s1] =>
          destruct (IH s1 Hrest) as [H1 [H2 H3]]
      end.
      { simpl. intros x. specialize (Hcount x). simpl in Hcount.
        destruct (Nat.eq_dec c x); lia. }
      simpl in *. repeat split; auto.
      rewrite H3. repeat (rewrite effects_app; simpl).
      rewrite <- !app_assoc. reflexivity.
    + assert (Hin : In c (ACTIVE_CONNECTIONS st)).
      { apply (count_occ_In Nat.eq_dec). specialize (Hcount c).
        simpl in Hcount. destruct (Nat.eq_dec c c); [lia | congruence]. }
      destruct (list_remove_In _ _ Hin) as [l Hl].
      rewrite (@send_tags_failed st tags c e l Hc Hl).
      match goal with
      | |- context [for_each pending _ ?s1] =>
          destruct (IH s1 Hrest) as [H1 [H2 H3]]
      end.
      { simpl. intros x. specialize (Hcount x). simpl in Hcount.
        pose proof (list_remove_count _ _ Hl x) as Hx.
        destruct (Nat.eq_dec c x); lia. }
      simpl in *. repeat split; auto.
      rewrite H3. repeat (rewrite effects_app; simpl).
      rewrite <- !app_assoc. reflexivity.
Qed.

Lemma poller_sends (tags : list json) (outcome : WebSocket -> SendOutcome)
    (pending : list WebSocket) (after : list (@Action R)) :
  forall st (recv : list WebSocket) (asleep : nat),
    (forall c, In c pending -> caught (outcome c) = true) ->
    (forall x, count_occ Nat.eq_dec pending x
               <= count_occ Nat.eq_dec (ACTIVE_CONNECTIONS st) x) ->
    run (map (fun c => PollerStep (outcome c)) pending ++ after)
        (mkSystem st (Sending tags pending) recv asleep)
    = run after
        (mkSystem (snd (for_each pending (fun c => send_tags tags c (outcome c)) st))
                  (Sending tags []) recv asleep).
Proof.
  induction pending as [|c pending IH]; intros st recv asleep Hcaught Hcount.
  - reflexivity.
  - assert (Hrest : forall c', In c' pending -> caught (outcome c') = true)
      by (intros c' Hc'; apply Hcaught; right; exact Hc').
    assert (Hc : caught (outcome c) = true) by (apply Hcaught; left; reflexivity).
    cbn [map List.app run step]. unfold poller_step. cbn [poller globals for_each].
    unfold bind.
    destruct (outcome c) as [|e] eqn:Eo; simpl in Hc.
    + rewrite send_tags_sent. cbn [receiving sleeping]. apply IH; [exact Hrest|].
      simpl. intros x. specialize (Hcount x). simpl in Hcount.
      destruct (Nat.eq_dec c x); lia.
    + assert (Hin : In c (ACTIVE_CONNECTIONS st)).
      { apply (count_occ_In Nat.eq_dec). specialize (Hcount c).
        simpl in Hcount. destruct (Nat.eq_dec c c); [lia | congruence]. }
      destruct (list_remove_In _ _ Hin) as [l Hl].
      rewrite (@send_tags_failed st tags c e l Hc Hl).
      cbn [receiving sleeping]. apply IH; [exact Hrest|].
      simpl. intros x. specialize (Hcount x). simpl in Hcount.
      pose proof (list_remove_count _ _ Hl x) as Hx.
      destruct (Nat.eq_dec c x); lia.
Qed.

(** The steps of the polling task, when no other action comes between
    them, add up to one round of [process_queue]. *)
Lemma poller_round s (outcome : WebSocket -> SendOutcome) (tags : list json)
    (rest : list (list json)) :
  poller s = Polling ->
  TAG_QUEUE (globals s) = tags :: rest ->
  (forall c, In c (ACTIVE_CONNECTIONS (globals s)) -> caught (outcome c) = true) ->
  run (round_actions outcome (ACTIVE_CONNECTIONS (globals s))) s
  = Some (mkSystem (snd (process_queue_iteration outcome (globals s)))
                   Polling (receiving s) (sleeping s)).
Proof.
  intros Hp Hq Hcaught.
  unfold round_actions. cbn [run step]. unfold poller_step. rewrite Hp.
  unfold process_queue_iteration, poll_queue, bind, gets. simpl.
  rewrite Hq. simpl.
  match goal with
  | |- context [mkSystem ?s1 (Sending tags _) _ _] =>
      rewrite (@poller_sends tags outcome (ACTIVE_CONNECTIONS (globals s))
                 [PollerStep Sent] s1 (receiving s) (sleeping s) Hcaught);
      [|simpl; intros; lia];
      destruct (@send_loop tags outcome (ACTIVE_CONNECTIONS (globals s)) s1 Hcaught)
        as [H1 _]; [simpl; intros; lia|];
      destruct (for_each (ACTIVE_CONNECTIONS (globals s))
                  (fun c => send_tags tags c (outcome c)) s1) as [[u|e] st1]
  end; simpl in *; [reflexivity | discriminate].
Qed.

(** C2, as the code has it.  One round of the polling loop that finds the
    queue non-empty takes exactly one item off it, the oldest; what else
    was queued stays queued.  That one item is sent as [{"tags": item}],
    once, to every connection that was in [ACTIVE_CONNECTIONS] when the
    item was taken, in the order of the list and whether or not an earlier
    send failed, and then the loop sleeps.  (The round runs without
    interruption, and a failed send raises an [Exception].) *)
Theorem process_queue_iteration_takes_one_item st
    (outcome : WebSocket -> SendOutcome) (tags : list json)
    (rest : list (list json)) :
  TAG_QUEUE st = tags :: rest ->
  (forall c, In c (ACTIVE_CONNECTIONS st) -> caught (outcome c) = true) ->
  let result := process_queue_iteration outcome st in
  fst result = Ok tt
  /\ TAG_QUEUE (snd result) = rest
  /\ effects (trace (snd result))
     = effects (trace st)
       ++ map (fun c => EvSendJson c (tags_message tags) (failure_of (outcome c)))
              (ACTIVE_CONNECTIONS st)
       ++ [EvSleep 100].
Proof.
  intros Hq Hcaught.
  unfold process_queue_iteration, poll_queue, bind, gets. simpl.
  rewrite Hq. simpl.
  match goal with
  | |- context [for_each _ _ ?s1] =>
      destruct (@send_loop tags outcome (ACTIVE_CONNECTIONS st) s1 Hcaught)
        as [H1 [H2 H3]]; [simpl; intros; lia|];
      destruct (for_each (ACTIVE_CONNECTIONS st)
                  (fun c => send_tags tags c (outcome c)) s1) as [[u|e] st1]
  end; simpl in *; [|discriminate].
  repeat split; auto.
  rewrite effects_app, H3. repeat (rewrite effects_app; simpl).
  rewrite app_nil_r, <- !app_assoc. reflexivity.
Qed.

Lemma websocket_receive_raises st (ws : WebSocket) (e : exn) :
  NoDup (ACTIVE_CONNECTIONS st) ->
  isinstance_Exception e = true ->
  let result := websocket_receive ws (RecvRaises e) st in
  fst result <> Ok true
  /\ ~ In ws (ACTIVE_CONNECTIONS (snd result))
  /\ (forall c, c <> ws ->
        (In c (ACTIVE_CONNECTIONS (snd result)) <-> In c (ACTIVE_CONNECTIONS st)))
  /\ (In ws (ACTIVE_CONNECTIONS st) -> fst result = Ok false).
Proof.
  intros Hnd He.
  assert (Hcases :
    forall st1, ACTIVE_CONNECTIONS st1 = ACTIVE_CONNECTIONS st ->
      let result := connections_remove ws st1 in
      ~ In ws (ACTIVE_CONNECTIONS (snd result))
      /\ (forall c, c <> ws ->
            (In c (ACTIVE_CONNECTIONS (snd result)) <-> In c (ACTIVE_CONNECTIONS st)))
      /\ (In ws (ACTIVE_CONNECTIONS st) -> fst result = Ok tt)).
  { intros st1 H1. unfold connections_remove. rewrite H1.
    destruct (list_remove ws (ACTIVE_CONNECTIONS st)) as [l|] eqn:E; simpl.
    - split; [eapply list_remove_NoDup; eauto|].
      split; [|reflexivity].
      intros c Hc. eapply list_remove_other; eauto.
    - apply list_remove_None in E. rewrite H1.
      split; [exact E|]. split; [tauto | contradiction]. }
  unfold websocket_receive, try_except, receive_text, bind, raise. simpl.
  destruct (isinstance_WebSocketDisconnect e) eqn:Ew.
  - unfold log, emit, modify. simpl.
    match goal with
    | |- context [connections_remove ws ?s1] =>
        destruct (Hcases s1 eq_refl) as [H1 [H2 H3]];
        destruct (connections_remove ws s1) as [[u|e'] st2]
    end; simpl in *; repeat split; auto; try discriminate;
      try (apply H2; assumption).
    intros Hin. specialize (H3 Hin). discriminate.
  - rewrite He. unfold log, emit, modify, gets. simpl.
    destruct (contains ws (ACTIVE_CONNECTIONS st)) eqn:Ec.
    + match goal with
      | |- context [connections_remove ws ?s1] =>
          destruct (Hcases s1 eq_refl) as [H1 [H2 H3]];
          destruct (connections_remove ws s1) as [[u|e'] st2]
      end; simpl in *; repeat split; auto; try discriminate;
        try (apply H2; assumption).
      intros Hin. specialize (H3 Hin). discriminate.
    + apply contains_false in Ec. simpl.
      repeat split; auto; try discriminate; try tauto.
Qed.

(** C5.  In the running service, when the [receive_text] of the handler of
    an accepted connection raises [WebSocketDisconnect] or any other
    [Exception], the handler ends and the connection is then in
    [ACTIVE_CONNECTIONS] no more; the other connections stay.  If the
    connection was still listed, the handler is the one that removed it
    and it returns normally. *)
Theorem disconnected_websocket_is_removed s (ws : WebSocket) (e : exn) :
  reachable s ->
  In ws (receiving s) ->
  isinstance_Exception e = true ->
  exists s',
    step (WsReceive ws (RecvRaises e)) s = Some s'
    /\ ~ In ws (ACTIVE_CONNECTIONS (globals s'))
    /\ ~ In ws (receiving s')
    /\ (forall c, c <> ws ->
          (In c (ACTIVE_CONNECTIONS (globals s'))
           <-> In c (ACTIVE_CONNECTIONS (globals s))))
    /\ (In ws (ACTIVE_CONNECTIONS (globals s)) ->
        fst (websocket_receive ws (RecvRaises e) (globals s)) = Ok false).
Proof.
  intros Hreach Hin He.
  destruct (reachable_invariant Hreach) as [[_ Hnd _ _] Hrecv _].
  destruct (@websocket_receive_raises (globals s) ws e Hnd He) as [H1 [H2 [H3 H4]]].
  apply contains_In in Hin. simpl. rewrite Hin.
  destruct (websocket_receive ws (RecvRaises e) (globals s)) as [[[|]|e'] st] eqn:E;
    simpl in *; try congruence;
    (eexists; split; [reflexivity|]; simpl;
     split; [exact H2|];
     split; [apply drop_NoDup; assumption|];
     split; [exact H3 | exact H4]).
Qed.

(** C4.  In the running service, when the polling loop sends a queued item
    to a connection that is in [ACTIVE_CONNECTIONS] and the send raises an
    [Exception], the error is logged, the connection is taken out of
    [ACTIVE_CONNECTIONS] (the others stay), nothing is raised out of the
    loop, and the loop goes on with the connections it has not served. *)
Theorem failed_send_removes_connection s (tags : list json)
    (connection : WebSocket) (pending : list WebSocket) (e : exn) :
  reachable s ->
  poller s = Sending tags (connection :: pending) ->
  In connection (ACTIVE_CONNECTIONS (globals s)) ->
  isinstance_Exception e = true ->
  exists s',
    step (PollerStep (SendRaises e)) s = Some s'
    /\ poller s' = Sending tags pending
    /\ fst (send_tags tags connection (SendRaises e) (globals s)) = Ok tt
    /\ ~ In connection (ACTIVE_CONNECTIONS (globals s'))
    /\ (forall c, c <> connection ->
          (In c (ACTIVE_CONNECTIONS (globals s'))
           <-> In c (ACTIVE_CONNECTIONS (globals s))))
    /\ trace (globals s')
       = trace (globals s)
         ++ [EvSendJson connection (tags_message tags) (Some e);
             EvLog ERROR "Error sending to websocket"].
Proof.
  intros Hreach Hp Hin He.
  destruct (reachable_invariant Hreach) as [[_ Hnd _ _] _ _].
  destruct (list_remove_In _ _ Hin) as [l Hl].
  simpl. unfold poller_step. rewrite Hp.
  rewrite (@send_tags_failed (globals s) tags connection e l He Hl).
  eexists. split; [reflexivity|]. simpl.
  split; [reflexivity|]. split; [reflexivity|].
  split; [eapply list_remove_NoDup; eauto|].
  split; [intros c Hc; eapply list_remove_other; eauto|].
  rewrite <- app_assoc. reflexivity.
Qed.

(** C6.  In the running service every [GET /state] returns the object
    whose ["code"] is the current state code of the reader client and whose
    ["state"] is the name that [getStateName] gives to that code. *)
Theorem state_endpoint_reports_reader_state s :
  reachable s ->
  exists r,
    READER (globals s) = Some r
    /\ handler GET_state (globals s)
       = (Ok (JObj [("state"%string, JStr (getStateName (llrp_state r)));
                    ("code"%string, JInt (llrp_state r))]),
          globals s).
Proof.
  intros Hreach.
  destruct (reachable_invariant Hreach) as [[Hr _ _ _] _ _].
  destruct (READER (globals s)) as [r|] eqn:E; [|contradiction].
  exists r. split; [reflexivity|]. simpl. apply is_reading_with_reader. exact E.
Qed.

Lemma sent_on_In (ws : WebSocket) (msg : json) (tr : list Event) :
  In msg (sent_on ws tr) -> exists failure, In (EvSendJson ws msg failure) tr.
Proof.
  induction tr as [|ev tr IH]; simpl; [tauto|].
  destruct ev; try (intros H; destruct (IH H) as [f Hf]; eauto).
  destruct (Nat.eqb_spec ws ws0) as [->|Hne]; simpl.
  - intros [<-|H]; [eauto | destruct (IH H) as [f Hf]; eauto].
  - intros H. destruct (IH H) as [f Hf]. eauto.
Qed.

(** C7.  In the running service every message sent on a connection is an
    object with the single key ["tags"] that holds the dumped tags of one
    queued batch.  A text received from the client is dropped: the whole
    state of the service, trace included, is what it was, so neither the
    globals change nor is anything sent in answer. *)
Theorem websocket_sends_tags_and_ignores_text s (ws : WebSocket) :
  reachable s ->
  (forall msg, In msg (sent_on ws (trace (globals s))) -> tags_shaped msg)
  /\ (forall text,
        In ws (receiving s) ->
        websocket_receive ws (RecvText text) (globals s) = (Ok true, globals s)
        /\ step (WsReceive ws (RecvText text)) s = Some s).
Proof.
  intros Hreach.
  destruct (reachable_invariant Hreach) as [[_ _ _ Htr] _ _].
  split.
  - intros msg Hmsg. destruct (sent_on_In _ _ _ Hmsg) as [f Hf].
    rewrite Forall_forall in Htr. exact (Htr _ Hf).
  - intros text Hin. split; [reflexivity|].
    apply contains_In in Hin. simpl. rewrite Hin.
    destruct s; reflexivity.
Qed.

End Sockets.

(** * The properties on the stand-in service *)

Lemma demo_boot_is_boot : boot = Some demo_boot.
Proof. reflexivity. Qed.

Lemma demo_boot_reachable : reachable demo_boot.
Proof. exists demo_boot, []. split; reflexivity. Qed.

Lemma demo_sending_reachable : reachable demo_sending.
Proof. exists demo_boot, demo_actions_sending. split; reflexivity. Qed.

Lemma demo_sent_once_reachable : reachable demo_sent_once.
Proof.
  exists demo_boot, (demo_actions_sending ++ [PollerStep Sent]).
  split; reflexivity.
Qed.

(** C1 on the stand-in service right after startup: the reader is alive. *)
Lemma start_reading_clears_before_startInventory_witness :
  READER (globals demo_boot) = Some (mkSimReader true 3)
  /\ is_alive (mkSimReader true 3) = true
  /\ trace (snd (start_reading (globals demo_boot)))
     = trace (globals demo_boot) ++ [EvAssignTagData []; EvReaderCall startInventory]
  /\ effects (trace (snd (handle_event (demo_gpi 1 true) (globals demo_boot))))
     = effects (trace (globals demo_boot))
       ++ [EvAssignTagData []; EvReaderCall startInventory].
Proof.
  pose proof (@start_reading_clears_before_startInventory
                SimReader sim_client (globals demo_boot) (mkSimReader true 3)
                eq_refl eq_refl) as H.
  split; [reflexivity|]. split; [reflexivity|].
  split.
  - exact (proj1 (proj1 H)).
  - exact (proj2 (proj2 (proj2 H)) (demo_gpi 1 true) _ eq_refl eq_refl eq_refl).
Defined.

(** C2 as stated fails: of two queued items, one round takes the first and
    sends it to both connections; the second is still queued, and has been
    sent to nobody, when the loop goes to sleep. *)
Lemma process_queue_iteration_leaves_second_item :
  let st' := snd (process_queue_iteration (fun _ => Sent) demo_two_items) in
  TAG_QUEUE demo_two_items = [[model_dump demo_tag]; [model_dump demo_tag_b]]
  /\ TAG_QUEUE st' = [[model_dump demo_tag_b]]
  /\ TAG_QUEUE st' <> []
  /\ effects (trace st')
     = [EvSendJson 1 (tags_message [model_dump demo_tag]) None;
        EvSendJson 2 (tags_message [model_dump demo_tag]) None;
        EvSleep 100].
Proof.
  simpl. repeat split. discriminate.
Qed.

(** C2 as amended, with a first connection whose send fails. *)
Lemma process_queue_iteration_takes_one_item_witness :
  TAG_QUEUE demo_two_items = [model_dump demo_tag] :: [[model_dump demo_tag_b]]
  /\ (forall c, In c (ACTIVE_CONNECTIONS demo_two_items) ->
                caught (demo_outcome c) = true)
  /\ fst (process_queue_iteration demo_outcome demo_two_items) = Ok tt
  /\ TAG_QUEUE (snd (process_queue_iteration demo_outcome demo_two_items))
     = [[model_dump demo_tag_b]]
  /\ effects (trace (snd (process_queue_iteration demo_outcome demo_two_items)))
     = effects (trace demo_two_items)
       ++ map (fun c => EvSendJson c (tags_message [model_dump demo_tag])
                          (failure_of (demo_outcome c)))
              (ACTIVE_CONNECTIONS demo_two_items)
       ++ [EvSleep 100].
Proof.
  assert (Hc : forall c, In c (ACTIVE_CONNECTIONS demo_two_items) ->
                         caught (demo_outcome c) = true).
  { intros c [<-|[<-|[]]]; reflexivity. }
  split; [reflexivity|]. split; [exact Hc|].
  exact (@process_queue_iteration_takes_one_item
           SimReader demo_two_items demo_outcome
           [model_dump demo_tag] [[model_dump demo_tag_b]] eq_refl Hc).
Defined.

(** C3 on a sequence of three invocations, the second of which raises. *)
Lemma tag_data_is_latest_batch_witness :
  (forall report, In report [demo_report] -> ascii_bytes (EPC report) = true)
  /\ TAG_DATA (deliver ([[demo_report; demo_report]; [demo_report_binary]]
                        ++ [[demo_report]]) (globals demo_boot))
     = [demo_tag]
  /\ Forall2 translates [demo_report]
       (TAG_DATA (deliver ([[demo_report; demo_report]; [demo_report_binary]]
                           ++ [[demo_report]]) (globals demo_boot))).
Proof.
  assert (Ha : forall report,
             In report [demo_report] -> ascii_bytes (EPC report) = true).
  { intros report [<-|[]]. reflexivity. }
  split; [exact Ha|]. split; [reflexivity|].
  exact (proj2 (proj2 (@tag_data_is_latest_batch
                         SimReader (globals demo_boot)
                         [[demo_report; demo_report]; [demo_report_binary]]
                         [demo_report] Ha))).
Defined.

(** C4 on the stand-in service: the send to connection 1 fails. *)
Lemma failed_send_removes_connection_witness :
  reachable demo_sending
  /\ poller demo_sending = Sending [model_dump demo_tag] [1; 2]
  /\ In 1 (ACTIVE_CONNECTIONS (globals demo_sending))
  /\ isinstance_Exception OtherException = true
  /\ exists s',
       step (PollerStep (SendRaises OtherException)) demo_sending = Some s'
       /\ poller s' = Sending [model_dump demo_tag] [2]
       /\ fst (send_tags [model_dump demo_tag] 1 (SendRaises OtherException)
                 (globals demo_sending)) = Ok tt
       /\ ~ In 1 (ACTIVE_CONNECTIONS (globals s'))
       /\ (forall c, c <> 1 ->
             (In c (ACTIVE_CONNECTIONS (globals s'))
              <-> In c (ACTIVE_CONNECTIONS (globals demo_sending))))
       /\ trace (globals s')
          = trace (globals demo_sending)
            ++ [EvSendJson 1 (tags_message [model_dump demo_tag])
                  (Some OtherException);
                EvLog ERROR "Error sending to websocket"].
Proof.
  assert (Hin : In 1 (ACTIVE_CONNECTIONS (globals demo_sending)))
    by (simpl; auto).
  split; [exact demo_sending_reachable|]. split; [reflexivity|].
  split; [exact Hin|]. split; [reflexivity|].
  exact (@failed_send_removes_connection
           SimReader sim_client demo_sending [model_dump demo_tag] 1 [2]
           OtherException demo_sending_reachable eq_refl Hin eq_refl).
Defined.

(** C5 on the stand-in service: connection 2 disconnects. *)
Lemma disconnected_websocket_is_removed_witness :
  reachable demo_sending
  /\ In 2 (receiving demo_sending)
  /\ isinstance_Exception WebSocketDisconnect = true
  /\ exists s',
       step (WsReceive 2 (RecvRaises WebSocketDisconnect)) demo_sending = Some s'
       /\ ~ In 2 (ACTIVE_CONNECTIONS (globals s'))
       /\ ~ In 2 (receiving s')
       /\ (forall c, c <> 2 ->
             (In c (ACTIVE_CONNECTIONS (globals s'))
              <-> In c (ACTIVE_CONNECTIONS (globals demo_sending))))
       /\ (In 2 (ACTIVE_CONNECTIONS (globals demo_sending)) ->
           fst (websocket_receive 2 (RecvRaises WebSocketDisconnect)
                  (globals demo_sending)) = Ok false).
Proof.
  assert (Hin : In 2 (receiving demo_sending)) by (simpl; auto).
  split; [exact demo_sending_reachable|]. split; [exact Hin|].
  split; [reflexivity|].
  exact (@disconnected_websocket_is_removed
           SimReader sim_client demo_sending 2 WebSocketDisconnect
           demo_sending_reachable Hin eq_refl).
Defined.

(** C6 on the stand-in service right after startup. *)
Lemma state_endpoint_reports_reader_state_witness :
  reachable demo_boot
  /\ exists r,
       READER (globals demo_boot) = Some r
       /\ handler GET_state (globals demo_boot)
          = (Ok (JObj [("state"%string, JStr (getStateName (llrp_state r)));
                       ("code"%string, JInt (llrp_state r))]),
             globals demo_boot).
Proof.
  split; [exact demo_boot_reachable|].
  exact (@state_endpoint_reports_reader_state
           SimReader sim_client demo_boot demo_boot_reachable).
Defined.

(** C7 on the stand-in service after one message has gone to connection 1. *)
Lemma websocket_sends_tags_and_ignores_text_witness :
  reachable demo_sent_once
  /\ sent_on 1 (trace (globals demo_sent_once)) = [tags_message [model_dump demo_tag]]
  /\ tags_shaped (tags_message [model_dump demo_tag])
  /\ step (WsReceive 1 (RecvText "hello")) demo_sent_once = Some demo_sent_once.
Proof.
  pose proof (@websocket_sends_tags_and_ignores_text
                SimReader sim_client demo_sent_once 1
                demo_sent_once_reachable) as [Hshape Htext].
  split; [exact demo_sent_once_reachable|]. split; [reflexivity|].
  split.
  - apply Hshape. simpl. auto.
  - apply (Htext "hello"%string). simpl. auto.
Defined.

(** C8 on the module before startup. *)
Lemma start_and_stop_do_nothing_without_live_reader_witness :
  reader_down demo_no_reader
  /\ start_reading demo_no_reader = (Ok tt, demo_no_reader)
  /\ stop_reading demo_no_reader = (Ok tt, demo_no_reader)
  /\ start demo_no_reader = (Ok (message "Reading started"), demo_no_reader)
  /\ stop demo_no_reader = (Ok (message "Reading stopped"), demo_no_reader).
Proof.
  assert (Hd : reader_down demo_no_reader) by (left; reflexivity).
  split; [exact Hd|].
  exact (@start_and_stop_do_nothing_without_live_reader
           SimReader sim_client demo_no_reader Hd).
Defined.

(** C9 on the module before startup. *)
Lemma status_and_state_raise_without_reader_witness :
  READER demo_no_reader = None
  /\ status demo_no_reader = (Raise AttributeError, demo_no_reader)
  /\ is_reading demo_no_reader = (Raise AttributeError, demo_no_reader)
  /\ start demo_no_reader = (Ok (message "Reading started"), demo_no_reader)
  /\ stop demo_no_reader = (Ok (message "Reading stopped"), demo_no_reader)
  /\ get_tags demo_no_reader
     = (Ok (tags_message (map model_dump (TAG_DATA demo_no_reader))), demo_no_reader)
  /\ fst (clear demo_no_reader) = Ok (message "Tag data cleared").
Proof.
  split; [reflexivity|].
  exact (@status_and_state_raise_without_reader
           SimReader sim_client demo_no_reader eq_refl).
Defined.

(** C10 on the stand-in service, whose reader is alive: a true and a false
    flag on port 1, a true flag on port 2, and an event that is not a GPI
    event. *)
Lemma handle_event_follows_gpi_port_1_witness :
  let st := globals demo_sending in
  observable (snd (handle_event (demo_gpi 1 true) st))
  = (Some (mkSimReader true 6), [], TAG_QUEUE st, ACTIVE_CONNECTIONS st,
     effects (trace st) ++ [EvAssignTagData []; EvReaderCall startInventory])
  /\ observable (snd (handle_event (demo_gpi 1 false) st))
     = (Some (mkSimReader true 3), TAG_DATA st, TAG_QUEUE st,
        ACTIVE_CONNECTIONS st,
        effects (trace st) ++ [EvReaderCall stopPolitely])
  /\ observable (snd (handle_event (demo_gpi 1 true) demo_no_reader))
     = observable demo_no_reader
  /\ observable (snd (handle_event (demo_gpi 2 true) st)) = observable st
  /\ observable (snd (handle_event demo_connection_event st)) = observable st.
Proof.
  intros st.
  split; [|split; [|split; [|split]]].
  - exact (proj1 (proj2 (proj1 (@handle_event_follows_gpi_port_1
                                  SimReader sim_client st (demo_gpi 1 true))
                           _ eq_refl eq_refl eq_refl))
             (mkSimReader true 3) eq_refl eq_refl).
  - exact (proj1 (proj2 (proj1 (proj2 (@handle_event_follows_gpi_port_1
                                         SimReader sim_client st
                                         (demo_gpi 1 false)))
                           _ eq_refl eq_refl eq_refl))
             (mkSimReader true 3) eq_refl eq_refl).
  - apply (proj2 (proj2 (proj1 (@handle_event_follows_gpi_port_1
                                  SimReader sim_client demo_no_reader
                                  (demo_gpi 1 true))
                           _ eq_refl eq_refl eq_refl))).
    left. reflexivity.
  - apply (proj2 (proj2 (@handle_event_follows_gpi_port_1
                           SimReader sim_client st (demo_gpi 2 true)))).
    right. right. eexists. split; [reflexivity|]. simpl. discriminate.
  - apply (proj2 (proj2 (@handle_event_follows_gpi_port_1
                           SimReader sim_client st demo_connection_event))).
    left. reflexivity.
Defined.

(** * Further properties of the code *)

(** ** The tag-report callback *)

Lemma decode_ascii_None (bs : list byte) :
  ascii_bytes bs = false -> decode_ascii bs = None.
Proof.
  induction bs as [|b bs IH]; simpl; [discriminate|].
  destruct (Byte.to_N b <? 128)%N; simpl; [|reflexivity].
  intros H. rewrite (IH H). reflexivity.
Qed.

Lemma tags_of_reports_None (batch : list TagReport) (report : TagReport) :
  In report batch -> ascii_bytes (EPC report) = false ->
  tags_of_reports batch = None.
Proof.
  induction batch as [|r batch IH]; simpl; [tauto|].
  intros [->|Hin] Hbad.
  - unfold tag_of_report. rewrite (decode_ascii_None _ Hbad). reflexivity.
  - destruct (tag_of_report r); [|reflexivity].
    rewrite (IH Hin Hbad). reflexivity.
Qed.

Section Reports.

Context {R : Type}.

Implicit Types st : @State R.

(** X1.  When one report of the batch has an EPC with a byte that is not
    ASCII, the tag-report callback raises [UnicodeDecodeError] and has done
    nothing: [TAG_DATA] still holds the earlier batch, nothing is queued,
    nothing is logged, also when the other reports of the batch are fine. *)
Theorem tag_report_cb_rejects_non_ascii st (batch : list TagReport)
    (report : TagReport) :
  In report batch ->
  ascii_bytes (EPC report) = false ->
  tag_report_cb batch st = (Raise UnicodeDecodeError, st).
Proof.
  intros Hin Hbad. apply tag_report_cb_undecodable.
  exact (tags_of_reports_None _ _ Hin Hbad).
Qed.

Lemma deliver_queue st (batches : list (list TagReport)) :
  TAG_QUEUE (deliver batches st) = TAG_QUEUE st ++ queued_items batches.
Proof.
  revert st. induction batches as [|batch batches IH]; intros st; simpl.
  - rewrite app_nil_r. reflexivity.
  - unfold deliver in *. simpl. rewrite IH.
    destruct (tags_of_reports batch) as [tags|] eqn:E.
    + rewrite (tag_report_cb_translated st _ E). simpl.
      rewrite <- app_assoc. reflexivity.
    + rewrite (tag_report_cb_undecodable st _ E). reflexivity.
Qed.

(** X2.  Whatever sequence of batches the tag-report callback is invoked
    on, the queue afterwards is the queue before followed by one item per
    batch that could be translated, in the order of the invocations; a
    batch that made the callback raise has left no item. *)
Theorem tag_reports_are_queued_in_order st (batches : list (list TagReport)) :
  TAG_QUEUE (deliver batches st) = TAG_QUEUE st ++ queued_items batches
  /\ List.length (TAG_QUEUE (deliver batches st))
     <= List.length (TAG_QUEUE st) + List.length batches.
Proof.
  split; [apply deliver_queue|].
  rewrite deliver_queue, List.length_app.
  apply Nat.add_le_mono_l.
  induction batches as [|batch batches IH]; simpl; [lia|].
  rewrite List.length_app. destruct (tags_of_reports batch); simpl; lia.
Qed.

(** X3.  Right after an invocation of the tag-report callback that
    returned, [GET /last-read] answers with the very message that the
    WebSocket subscribers are to get for this batch: [{"tags": item}] for
    the item now last in the queue. *)
Theorem last_read_is_the_queued_message st (batch : list TagReport) :
  fst (tag_report_cb batch st) = Ok tt ->
  let st' := snd (tag_report_cb batch st) in
  get_tags st' = (Ok (tags_message (last (TAG_QUEUE st') [])), st').
Proof.
  intros Hok. destruct (tags_of_reports batch) as [tags|] eqn:E.
  - rewrite (tag_report_cb_translated st _ E). simpl.
    rewrite last_last. reflexivity.
  - rewrite (tag_report_cb_undecodable st _ E) in Hok. discriminate.
Qed.

End Reports.

(** ** The polling loop, round after round *)

Lemma list_remove_middle (x : WebSocket) (pre post : list WebSocket) :
  ~ In x pre -> list_remove x (pre ++ x :: post) = Some (pre ++ post).
Proof.
  induction pre as [|y pre IH]; simpl; intros Hx.
  - rewrite Nat.eqb_refl. reflexivity.
  - destruct (Nat.eqb_spec x y) as [->|Hne]; [exfalso; auto|].
    rewrite IH; [reflexivity | auto].
Qed.

Lemma survivors_all_sent (connections : list WebSocket) :
  survivors all_sent connections = connections.
Proof.
  induction connections as [|c l IH]; [reflexivity|].
  unfold survivors in *. cbn [filter all_sent delivered]. f_equal. exact IH.
Qed.

Lemma survivors_incl (outcome : WebSocket -> SendOutcome)
    (connections : list WebSocket) :
  incl (survivors outcome connections) connections.
Proof.
  intros c Hc. unfold survivors in Hc. apply filter_In in Hc. tauto.
Qed.

Section Rounds.

Context {R : Type}.

Implicit Types st : @State R.

(** The [for] loop of one round: [kept] is what the loop has left in
    [ACTIVE_CONNECTIONS] of the connections it has walked. *)
Lemma send_loop_connections (tags : list json)
    (outcome : WebSocket -> SendOutcome) (pending : list WebSocket) :
  forall st (kept : list WebSocket),
    ACTIVE_CONNECTIONS st = kept ++ pending ->
    (forall c, In c kept -> delivered (outcome c) = true) ->
    (forall c, In c pending -> caught (outcome c) = true) ->
    let result :=
      for_each pending (fun c => send_tags tags c (outcome c)) st in
    fst result = Ok tt
    /\ ACTIVE_CONNECTIONS (snd result) = kept ++ survivors outcome pending
    /\ READER (snd result) = READER st
    /\ TAG_DATA (snd result) = TAG_DATA st
    /\ TAG_QUEUE (snd result) = TAG_QUEUE st
    /\ effects (trace (snd result))
       = effects (trace st)
         ++ map (fun c => EvSendJson c (tags_message tags) (failure_of (outcome c)))
                pending.
Proof.
  induction pending as [|c pending IH]; intros st kept Hconn Hkept Hcaught.
  - simpl. rewrite !app_nil_r in *. auto 10.
  - assert (Hrest : forall c', In c' pending -> caught (outcome c') = true)
      by (intros c' Hc'; apply Hcaught; right; exact Hc').
    assert (Hc : caught (outcome c) = true) by (apply Hcaught; left; reflexivity).
    cbn [for_each]. unfold bind, survivors. cbn [map filter].
    destruct (outcome c) as [|e] eqn:Eo; simpl in Hc.
    + rewrite send_tags_sent.
      match goal with
      | |- context [for_each pending _ ?s1] =>
          destruct (IH s1 (kept ++ [c])) as [H1 [H2 [H3 [H4 [H5 H6]]]]]
      end; auto.
      { simpl. rewrite Hconn, <- app_assoc. reflexivity. }
      { intros c' Hc'. apply in_app_iff in Hc'.
        destruct Hc' as [Hc'|[<-|[]]]; [auto | rewrite Eo; reflexivity]. }
      simpl in *. repeat (split; [assumption|]). split.
      * rewrite H2, <- app_assoc. reflexivity.
      * repeat (split; [assumption|]).
        rewrite H6. repeat (rewrite effects_app; simpl).
        rewrite <- !app_assoc. reflexivity.
    + assert (Hout : ~ In c kept).
      { intros Hin. specialize (Hkept c Hin). rewrite Eo in Hkept. discriminate. }
      assert (Hl : list_remove c (ACTIVE_CONNECTIONS st) = Some (kept ++ pending))
        by (rewrite Hconn; apply list_remove_middle; exact Hout).
      rewrite (@send_tags_failed R st tags c e _ Hc Hl).
      match goal with
      | |- context [for_each pending _ ?s1] =>
          destruct (IH s1 kept) as [H1 [H2 [H3 [H4 [H5 H6]]]]]
      end; auto.
      simpl in *. repeat (split; [assumption|]).
      rewrite H6. repeat (rewrite effects_app; simpl).
      rewrite <- !app_assoc. reflexivity.
Qed.

(** One round that finds an item. *)
Lemma round_with_item st (outcome : WebSocket -> SendOutcome)
    (tags : list json) (rest : list (list json)) :
  TAG_QUEUE st = tags :: rest ->
  (forall c, In c (ACTIVE_CONNECTIONS st) -> caught (outcome c) = true) ->
  let result := process_queue_iteration outcome st in
  fst result = Ok tt
  /\ ACTIVE_CONNECTIONS (snd result) = survivors outcome (ACTIVE_CONNECTIONS st)
  /\ READER (snd result) = READER st
  /\ TAG_DATA (snd result) = TAG_DATA st
  /\ TAG_QUEUE (snd result) = rest
  /\ effects (trace (snd result))
     = effects (trace st)
       ++ map (fun c => EvSendJson c (tags_message tags) (failure_of (outcome c)))
              (ACTIVE_CONNECTIONS st)
       ++ [EvSleep 100].
Proof.
  intros Hq Hcaught.
  unfold process_queue_iteration, poll_queue, bind, gets. simpl.
  rewrite Hq. simpl.
  match goal with
  | |- context [for_each _ _ ?s1] =>
      destruct (@send_loop_connections tags outcome (ACTIVE_CONNECTIONS st)
                  s1 [] eq_refl) as [H1 [H2 [H3 [H4 [H5 H6]]]]];
      [intros c []| exact Hcaught |];
      destruct (for_each (ACTIVE_CONNECTIONS st)
                  (fun c => send_tags tags c (outcome c)) s1) as [[u|e] st1]
  end; simpl in *; [|discriminate].
  split; [reflexivity|]. repeat (split; [assumption|]).
  rewrite effects_app, H6. repeat (rewrite effects_app; simpl).
  rewrite app_nil_r, <- !app_assoc. reflexivity.
Qed.

(** One round that finds the queue empty. *)
Lemma round_without_item st (outcome : WebSocket -> SendOutcome) :
  TAG_QUEUE st = [] ->
  process_queue_iteration outcome st = (Ok tt, record (EvSleep 100) st).
Proof.
  intros Hq. unfold process_queue_iteration, poll_queue, bind, gets. simpl.
  rewrite Hq. reflexivity.
Qed.

(** X4.  After a round of the polling loop that took an item, the
    connections left in [ACTIVE_CONNECTIONS] are exactly those to which the
    send was delivered, in the order they had: every connection whose send
    raised has been removed, no other.  The reader and [TAG_DATA] are as
    before.  (The round runs without interruption, and a failed send
    raises an [Exception].) *)
Theorem polling_round_keeps_the_delivered st
    (outcome : WebSocket -> SendOutcome) (tags : list json)
    (rest : list (list json)) :
  TAG_QUEUE st = tags :: rest ->
  (forall c, In c (ACTIVE_CONNECTIONS st) -> caught (outcome c) = true) ->
  let st' := snd (process_queue_iteration outcome st) in
  ACTIVE_CONNECTIONS st' = survivors outcome (ACTIVE_CONNECTIONS st)
  /\ READER st' = READER st
  /\ TAG_DATA st' = TAG_DATA st.
Proof.
  intros Hq Hcaught.
  destruct (round_with_item st outcome Hq Hcaught) as [_ [H2 [H3 [H4 _]]]].
  auto.
Qed.

(** X5.  However many rounds the polling loop makes and however the sends
    end, as long as a failed send raises an [Exception] the loop does not
    raise; each round takes at most one item, so that after [n] rounds the
    queue has lost its [n] oldest items (all of them if there were fewer);
    and the loop never adds a connection to [ACTIVE_CONNECTIONS]. *)
Theorem polling_rounds_take_one_item_each
    (outcomes : list (WebSocket -> SendOutcome)) :
  forall st,
    (forall o c, In o outcomes -> caught (o c) = true) ->
    let result := process_queue outcomes st in
    fst result = Ok tt
    /\ TAG_QUEUE (snd result) = skipn (List.length outcomes) (TAG_QUEUE st)
    /\ incl (ACTIVE_CONNECTIONS (snd result)) (ACTIVE_CONNECTIONS st).
Proof.
  induction outcomes as [|o outcomes IH]; intros st Hcaught.
  - simpl. repeat split. apply incl_refl.
  - assert (Hrest : forall o' c, In o' outcomes -> caught (o' c) = true)
      by (intros o' c Ho'; apply Hcaught; right; exact Ho').
    cbn [process_queue List.length]. unfold bind.
    destruct (TAG_QUEUE st) as [|tags rest] eqn:Eq.
    + rewrite (round_without_item st o Eq).
      destruct (IH (record (EvSleep 100) st) Hrest) as [H1 [H2 H3]].
      simpl in *. rewrite Eq in H2. rewrite skipn_nil in H2.
      repeat split; auto.
    + assert (Ho : forall c, In c (ACTIVE_CONNECTIONS st) -> caught (o c) = true)
        by (intros c _; apply Hcaught; left; reflexivity).
      destruct (round_with_item st o Eq Ho) as [G1 [G2 [_ [_ [G5 _]]]]].
      destruct (process_queue_iteration o st) as [[u|e] st1]; simpl in *;
        [|discriminate].
      destruct (IH st1 Hrest) as [H1 [H2 H3]].
      repeat split; auto.
      * rewrite H2, G5. reflexivity.
      * intros c Hc. apply H3 in Hc. rewrite G2 in Hc.
        exact (survivors_incl _ _ _ Hc).
Qed.

(** Rounds in which every send is delivered. *)
Lemma rounds_all_sent (n : nat) :
  forall st,
    let result := process_queue (repeat all_sent n) st in
    fst result = Ok tt
    /\ ACTIVE_CONNECTIONS (snd result) = ACTIVE_CONNECTIONS st
    /\ TAG_QUEUE (snd result) = skipn n (TAG_QUEUE st)
    /\ effects (trace (snd result))
       = effects (trace st)
         ++ flat_map (round_effects (ACTIVE_CONNECTIONS st)) (firstn n (TAG_QUEUE st))
         ++ repeat (EvSleep 100) (n - List.length (TAG_QUEUE st)).
Proof.
  induction n as [|n IH]; intros st.
  - simpl. rewrite app_nil_r. auto.
  - cbn [repeat process_queue]. unfold bind.
    destruct (TAG_QUEUE st) as [|tags rest] eqn:Eq.
    + rewrite (round_without_item st all_sent Eq).
      destruct (IH (record (EvSleep 100) st)) as [H1 [H2 [H3 H4]]].
      simpl in *. rewrite Eq in *. rewrite skipn_nil in H3.
      rewrite firstn_nil in H4. simpl in H4.
      repeat split; auto.
      rewrite H4, effects_app. simpl. rewrite Nat.sub_0_r, <- app_assoc.
      reflexivity.
    + assert (Ho : forall c, In c (ACTIVE_CONNECTIONS st) ->
                             caught (all_sent c) = true)
        by reflexivity.
      destruct (round_with_item st all_sent Eq Ho) as [G1 [G2 [_ [_ [G5 G6]]]]].
      destruct (process_queue_iteration all_sent st) as [[u|e] st1];
        simpl in *; [|discriminate].
      rewrite survivors_all_sent in G2.
      destruct (IH st1) as [H1 [H2 [H3 H4]]].
      repeat split; auto.
      * congruence.
      * rewrite H3, G5. reflexivity.
      * rewrite H4, G6, G5, G2. unfold round_effects.
        rewrite <- !app_assoc. reflexivity.
Qed.

(** X6.  While every send is delivered, [n] rounds of the polling loop
    forward the [n] oldest items of the queue in the order they were
    queued, one per round: each is sent once to every connection, in the
    order of [ACTIVE_CONNECTIONS], and followed by the sleep.  Rounds that
    find the queue empty only sleep.  The connections stay as they are. *)
Theorem polling_rounds_forward_in_queue_order st (n : nat) :
  let result := process_queue (repeat all_sent n) st in
  fst result = Ok tt
  /\ ACTIVE_CONNECTIONS (snd result) = ACTIVE_CONNECTIONS st
  /\ effects (trace (snd result))
     = effects (trace st)
       ++ flat_map (round_effects (ACTIVE_CONNECTIONS st)) (firstn n (TAG_QUEUE st))
       ++ repeat (EvSleep 100) (n - List.length (TAG_QUEUE st)).
Proof.
  destruct (rounds_all_sent n st) as [H1 [H2 [_ H4]]]. auto.
Qed.

Lemma deliver_connections st (batches : list (list TagReport)) :
  ACTIVE_CONNECTIONS (deliver batches st) = ACTIVE_CONNECTIONS st.
Proof.
  revert st. induction batches as [|batch batches IH]; intros st;
    [reflexivity|].
  unfold deliver in *. simpl. rewrite IH.
  destruct (tags_of_reports batch) as [tags|] eqn:E.
  - rewrite (tag_report_cb_translated st _ E). reflexivity.
  - rewrite (tag_report_cb_undecodable st _ E). reflexivity.
Qed.

(** X7.  From the callback to the subscribers: when the queue is empty and
    the tag-report callback is then invoked on a sequence of batches, as
    many rounds of the polling loop as batches were translated empty the
    queue again and send, for each of those batches in the order of the
    invocations, the dumped records of the batch to every connection
    (every send being delivered). *)
Theorem reported_batches_reach_the_subscribers st
    (batches : list (list TagReport)) :
  TAG_QUEUE st = [] ->
  let st1 := deliver batches st in
  let result :=
    process_queue (repeat all_sent (List.length (queued_items batches))) st1 in
  fst result = Ok tt
  /\ TAG_QUEUE (snd result) = []
  /\ effects (trace (snd result))
     = effects (trace st1)
       ++ flat_map (round_effects (ACTIVE_CONNECTIONS st)) (queued_items batches).
Proof.
  intros Hq st1 result.
  destruct (rounds_all_sent (List.length (queued_items batches)) st1)
    as [H1 [_ [H3 H4]]].
  assert (Hq1 : TAG_QUEUE st1 = queued_items batches).
  { unfold st1. rewrite deliver_queue, Hq. reflexivity. }
  fold result in H1, H3, H4.
  rewrite Hq1 in H3, H4.
  rewrite skipn_all in H3. rewrite firstn_all, Nat.sub_diag in H4.
  simpl in H4. rewrite app_nil_r in H4.
  unfold st1 in H4 at 2. rewrite deliver_connections in H4.
  auto.
Qed.

End Rounds.

(** ** A WebSocket session from accept to its end *)

Lemma list_remove_contains (x : WebSocket) (l l' : list WebSocket) :
  list_remove x l = Some l' -> contains x l = true.
Proof.
  intros H. apply contains_In.
  destruct (contains x l) eqn:E; [apply contains_In; exact E|].
  apply contains_false, list_remove_None in E. congruence.
Qed.

Section Sessions.

Context {R : Type}.

Implicit Types st : @State R.

(** The log entry of the [except] clause that handles [e]. *)
Lemma websocket_receive_listed st (ws : WebSocket) (e : exn)
    (l : list WebSocket) :
  isinstance_Exception e = true ->
  list_remove ws (ACTIVE_CONNECTIONS st) = Some l ->
  websocket_receive ws (RecvRaises e) st
  = (Ok false,
     set_ACTIVE_CONNECTIONS l
       (record (if isinstance_WebSocketDisconnect e
                then EvLog INFO "WebSocket disconnected"
                else EvLog ERROR "WebSocket error") st)).
Proof.
  intros He Hl. pose proof (list_remove_contains _ _ Hl) as Hc.
  unfold websocket_receive, try_except, receive_text, bind, raise. simpl.
  destruct (isinstance_WebSocketDisconnect e).
  - unfold log, emit, modify, connections_remove. simpl. rewrite Hl. reflexivity.
  - rewrite He. unfold log, emit, modify, gets, connections_remove. simpl.
    rewrite Hc. simpl. rewrite Hl. reflexivity.
Qed.

Lemma receive_loop_texts (ws : WebSocket) (texts : list string)
    (rest : list RecvOutcome) st :
  receive_loop ws (map RecvText texts ++ rest) st = receive_loop ws rest st.
Proof.
  induction texts as [|text texts IH]; [reflexivity|]. exact IH.
Qed.

(** X8.  A session on a new connection leaves no trace in the module: the
    handler adds the connection to [ACTIVE_CONNECTIONS] on accept, drops
    every text it receives, and when [receive_text] raises
    [WebSocketDisconnect] or another [Exception] it takes the connection
    out again and returns, without another [receive_text];
    [ACTIVE_CONNECTIONS] is then the list it was before the session, and
    the reader, [TAG_DATA] and [TAG_QUEUE] were never touched.  (Nothing
    else runs during the session.) *)
Theorem websocket_session_restores_connections st (ws : WebSocket)
    (texts : list string) (e : exn) (later : list RecvOutcome) :
  ~ In ws (ACTIVE_CONNECTIONS st) ->
  isinstance_Exception e = true ->
  let result :=
    websocket_endpoint ws None (map RecvText texts ++ RecvRaises e :: later) st in
  fst result = Ok tt
  /\ ACTIVE_CONNECTIONS (snd result) = ACTIVE_CONNECTIONS st
  /\ READER (snd result) = READER st
  /\ TAG_DATA (snd result) = TAG_DATA st
  /\ TAG_QUEUE (snd result) = TAG_QUEUE st
  /\ effects (trace (snd result)) = effects (trace st) ++ [EvAccept ws].
Proof.
  intros Hnew He.
  unfold websocket_endpoint, websocket_open, bind, log, emit, modify,
    connections_append. simpl.
  rewrite receive_loop_texts. simpl. unfold bind.
  match goal with
  | |- context [websocket_receive ws _ ?s1] =>
      rewrite (@websocket_receive_listed s1 ws e (ACTIVE_CONNECTIONS st) He)
  end.
  - simpl. repeat split.
    repeat (rewrite effects_app; simpl).
    destruct (isinstance_WebSocketDisconnect e); simpl;
      rewrite ?app_nil_r; reflexivity.
  - simpl. rewrite (list_remove_middle ws (ACTIVE_CONNECTIONS st) [] Hnew).
    rewrite app_nil_r. reflexivity.
Qed.

(** X9.  When [receive_text] raises something that is not an [Exception]
    (the handler is cancelled), no [except] clause applies: the exception
    leaves the handler, and the connection stays in [ACTIVE_CONNECTIONS],
    where the handler had put it last. *)
Theorem cancelled_websocket_stays_listed st (ws : WebSocket)
    (texts : list string) (e : exn) (later : list RecvOutcome) :
  isinstance_Exception e = false ->
  let result :=
    websocket_endpoint ws None (map RecvText texts ++ RecvRaises e :: later) st in
  fst result = Raise e
  /\ ACTIVE_CONNECTIONS (snd result) = ACTIVE_CONNECTIONS st ++ [ws].
Proof.
  intros He.
  unfold websocket_endpoint, websocket_open, bind, log, emit, modify,
    connections_append. simpl.
  rewrite receive_loop_texts. simpl.
  unfold bind, websocket_receive, try_except, receive_text, raise. simpl.
  destruct e; try discriminate. simpl. split; reflexivity.
Qed.

(** X10.  When the connection is no longer in [ACTIVE_CONNECTIONS] (the
    polling loop has removed it after a failed send), the two [except]
    clauses of the handler differ: on [WebSocketDisconnect] the unguarded
    [remove] raises [ValueError] out of the handler, on any other
    [Exception] the guarded one is skipped and the handler returns.  In
    both cases [ACTIVE_CONNECTIONS] is left as it is. *)
Theorem websocket_end_of_unlisted_connection st (ws : WebSocket) (e : exn) :
  ~ In ws (ACTIVE_CONNECTIONS st) ->
  isinstance_Exception e = true ->
  let result := websocket_receive ws (RecvRaises e) st in
  fst result
  = (if isinstance_WebSocketDisconnect e then Raise ValueError else Ok false)
  /\ ACTIVE_CONNECTIONS (snd result) = ACTIVE_CONNECTIONS st.
Proof.
  intros Hout He.
  pose proof (proj2 (list_remove_None _ _) Hout) as Hl.
  pose proof (proj2 (contains_false _ _) Hout) as Hc.
  unfold websocket_receive, try_except, receive_text, bind, raise. simpl.
  destruct (isinstance_WebSocketDisconnect e).
  - unfold log, emit, modify, connections_remove. simpl. rewrite Hl.
    split; reflexivity.
  - rewrite He. unfold log, emit, modify, gets. simpl. rewrite Hc.
    split; reflexivity.
Qed.

End Sessions.

(** ** Startup, shutdown and the calls into the reader client *)

Section Lifecycle.

Context {R : Type} {client : LLRPReaderClient R}.

Implicit Types st : @State R.

Lemma try_finally_raise_never_ok (e : exn) (cleanup : @M R unit) st :
  fst (try_finally (raise e) cleanup st) <> Ok tt.
Proof.
  unfold try_finally, raise. destruct (cleanup st) as [[u|e'] st']; discriminate.
Qed.

(** X11.  When the startup of the application succeeds, the reader client
    has been constructed and three calls were made on it, in this order
    and each returning: the tag-report callback is registered, the event
    callback is registered, and only then [connect] is called.  [READER]
    holds that client, as the three calls have left it.  The tag data, the
    queue and the connections are untouched. *)
Theorem lifespan_startup_registers_before_connect st :
  fst (lifespan_startup st) = Ok tt ->
  let st' := snd (lifespan_startup st) in
  exists r0,
    new_client READER_IP PORT lifespan_config = Ok r0
    /\ let r1 := snd (invoke add_tag_report_callback r0) in
       let r2 := snd (invoke add_event_callback r1) in
       let r3 := snd (invoke connect r2) in
       fst (invoke add_tag_report_callback r0) = None
       /\ fst (invoke add_event_callback r1) = None
       /\ fst (invoke connect r2) = None
       /\ READER st' = Some r3
       /\ TAG_DATA st' = TAG_DATA st
       /\ TAG_QUEUE st' = TAG_QUEUE st
       /\ ACTIVE_CONNECTIONS st' = ACTIVE_CONNECTIONS st
       /\ trace st'
          = trace st
            ++ [EvReaderCall add_tag_report_callback;
                EvReaderCall add_event_callback;
                EvReaderCall connect;
                EvLog INFO "RFID Reader initialized during startup"].
Proof.
  unfold lifespan_startup.
  destruct (lifespan_enter st) as [[u|e] st1] eqn:E.
  - intros _. simpl. revert E. unfold lifespan_enter.
    destruct (new_client READER_IP PORT lifespan_config) as [r|e];
      [|discriminate].
    unfold bind, modify, call_reader, log, emit, modify. simpl.
    destruct (invoke add_tag_report_callback r) as [[e1|] r1] eqn:E1; simpl;
      [discriminate|].
    destruct (invoke add_event_callback r1) as [[e2|] r2] eqn:E2; simpl;
      [discriminate|].
    destruct (invoke connect r2) as [[e3|] r3] eqn:E3; simpl; [discriminate|].
    intros E. inversion E; subst. simpl.
    exists r. split; [reflexivity|].
    rewrite E1. simpl. rewrite E2. simpl. rewrite E3. simpl.
    repeat split.
    rewrite <- !app_assoc. reflexivity.
  - intros H. exfalso. exact (try_finally_raise_never_ok _ _ _ H).
Qed.

(** X12.  When the reader client cannot be constructed, the startup of the
    application raises the constructor's exception and nothing has
    happened: [READER] is what it was (with no live reader there is
    nothing for the [finally] block to stop), and no call was made. *)
Theorem lifespan_startup_without_client st (e : exn) :
  new_client READER_IP PORT lifespan_config = Raise e ->
  reader_down st ->
  lifespan_startup st = (Raise e, st).
Proof.
  intros Hnew Hdown.
  unfold lifespan_startup, lifespan_enter. rewrite Hnew.
  unfold raise at 1. unfold try_finally, raise, lifespan_cleanup, bind.
  rewrite (reader_down_not_alive Hdown). reflexivity.
Qed.

(** X13.  The shutdown of the application with a live reader calls
    [stopPolitely] and then, only if that call returned, [disconnect]; an
    [Exception] raised by either call is logged and goes no further, so
    whatever leaves the shutdown is not an [Exception].  With no live
    reader the shutdown does nothing. *)
Theorem lifespan_shutdown_stops_then_disconnects st :
  (reader_down st -> lifespan_shutdown st = (Ok tt, st))
  /\ (forall r,
        READER st = Some r ->
        is_alive r = true ->
        let result := lifespan_shutdown st in
        (forall e, fst result = Raise e -> isinstance_Exception e = false)
        /\ effects (trace (snd result))
           = effects (trace st)
             ++ match fst (invoke stopPolitely r) with
                | Some _ => [EvReaderCall stopPolitely]
                | None => [EvReaderCall stopPolitely; EvReaderCall disconnect]
                end).
Proof.
  split.
  - intros Hdown.
    unfold lifespan_shutdown, try_finally, ret, lifespan_cleanup, bind.
    rewrite (reader_down_not_alive Hdown). reflexivity.
  - intros r HR Ha.
    unfold lifespan_shutdown, try_finally, ret, lifespan_cleanup, bind,
      reader_is_alive, gets.
    rewrite HR, Ha.
    unfold try_except, bind, call_reader, log, emit, modify. rewrite HR.
    destruct (invoke stopPolitely r) as [[e1|] r1]; simpl.
    + destruct (isinstance_Exception e1) eqn:E1; simpl.
      * split; [discriminate | trace_eq].
      * split; [intros e H; inversion H; subst; exact E1 | trace_eq].
    + destruct (invoke disconnect r1) as [[e2|] r2]; simpl.
      * destruct (isinstance_Exception e2) eqn:E2; simpl.
        -- split; [discriminate | trace_eq].
        -- split; [intros e H; inversion H; subst; exact E2 | trace_eq].
      * split; [discriminate | trace_eq].
Qed.

(** X14.  When [startInventory] raises, the exception leaves [GET /start]
    and [GET /start-stop] instead of an answer, and the two requests have
    done the same: the tag data is already cleared, and [GET /start-stop]
    has neither slept nor called [stopPolitely]. *)
Theorem failed_startInventory_leaves_the_handlers st (r r' : R) (e : exn) :
  READER st = Some r ->
  is_alive r = true ->
  invoke startInventory r = (Some e, r') ->
  fst (start st) = Raise e
  /\ fst (start_stop st) = Raise e
  /\ snd (start_stop st) = snd (start st)
  /\ TAG_DATA (snd (start st)) = []
  /\ READER (snd (start st)) = Some r'
  /\ trace (snd (start st))
     = trace st ++ [EvAssignTagData []; EvReaderCall startInventory].
Proof.
  intros HR Ha Hinv.
  pose proof (start_reading_alive st HR Ha) as Hs. rewrite Hinv in Hs.
  simpl in Hs.
  unfold start, start_stop, start_stop_begin, bind. rewrite Hs. simpl.
  repeat split. rewrite <- app_assoc. reflexivity.
Qed.

(** X15.  When [startInventory] returns, [GET /start-stop] clears the tag
    data, starts the inventory, sleeps one second and then, if the reader
    is still alive, calls [stopPolitely]; it answers [null], unless
    [stopPolitely] raises.  (Nothing else runs during the sleep.) *)
Theorem start_stop_starts_sleeps_stops st (r r1 : R) :
  READER st = Some r ->
  is_alive r = true ->
  invoke startInventory r = (None, r1) ->
  let result := start_stop st in
  fst result
  = match (if is_alive r1 then fst (invoke stopPolitely r1) else None) with
    | Some e => Raise e
    | None => Ok JNull
    end
  /\ TAG_DATA (snd result) = []
  /\ trace (snd result)
     = trace st
       ++ [EvAssignTagData []; EvReaderCall startInventory; EvSleep 1000]
       ++ (if is_alive r1 then [EvReaderCall stopPolitely] else []).
Proof.
  intros HR Ha Hinv.
  pose proof (start_reading_alive st HR Ha) as Hs. rewrite Hinv in Hs.
  simpl in Hs.
  unfold start_stop, start_stop_begin, start_stop_end, bind. rewrite Hs.
  unfold sleep, emit, modify. simpl.
  match goal with
  | |- context [stop_reading ?s] =>
      destruct (is_alive r1) eqn:Ea;
      [ rewrite (@stop_reading_alive R client s r1 eq_refl Ea)
      | rewrite (@stop_reading_down R client s
                   (or_intror (ex_intro _ r1 (conj eq_refl Ea)))) ]
  end; simpl.
  - destruct (invoke stopPolitely r1) as [[e|] r2]; simpl;
      repeat split; rewrite <- !app_assoc; reflexivity.
  - repeat split. rewrite <- !app_assoc. reflexivity.
Qed.

(** X16.  A GPI event of port 1 that carries no flag counts as one with a
    false flag: the event callback does what [stop_reading] does. *)
Theorem gpi_event_without_flag_stops st (event : LLRPEvent) (g : GPIEventParam) :
  ev_GPIEvent event = Some (Some g) ->
  GPIPortNumber g = Some 1%Z ->
  GPIEvent g = None ->
  observable (snd (handle_event event st)) = observable (snd (stop_reading st)).
Proof.
  intros Hev Hport Hflag.
  unfold handle_event, bind, log, emit, modify. rewrite Hev. simpl.
  unfold on_port_1, gpi_flag. rewrite Hport, Hflag. simpl.
  destruct (reader_down_dec st) as [Hd | [r [HR Ha]]].
  - rewrite (stop_reading_down Hd).
    match goal with
    | |- context [stop_reading ?s] =>
        assert (Hd' : reader_down s) by exact Hd;
        rewrite (stop_reading_down Hd')
    end.
    simpl. destruct (ev_ConnectionAttemptEvent event); trace_eq.
  - match goal with
    | |- context [stop_reading ?s] =>
        match s with
        | st => fail 1
        | _ => rewrite (@stop_reading_alive R client s r HR Ha)
        end
    end.
    rewrite (stop_reading_alive st HR Ha). simpl.
    destruct (fst (invoke stopPolitely r)); simpl;
      destruct (ev_ConnectionAttemptEvent event); trace_eq.
Qed.

End Lifecycle.

(** ** Which code touches which global *)

(** Walks through a piece of code along its binds, branches and handlers,
    and leaves each basic operation to [basic]. *)
Ltac walk basic :=
  repeat first
    [ apply preserves_ret
    | apply preserves_raise
    | apply preserves_gets
    | solve [basic]
    | apply preserves_bind; [|intro]
    | apply preserves_try_except;
      [|repeat (apply Forall_cons; [simpl; intro|]); try apply Forall_nil]
    | apply preserves_for_each; intro
    | match goal with
      | |- preserves _ (if ?b then _ else _) => destruct b
      | |- preserves _ (match ?x with _ => _ end) => destruct x
      end ].

Lemma sent_on_record_silent {R : Type} (ws : WebSocket) (e : Event)
    (st : @State R) :
  silent e = true ->
  sent_on ws (trace (record e st)) = sent_on ws (trace st).
Proof.
  intros He. simpl. rewrite sent_on_app.
  destruct e; try discriminate; simpl; apply app_nil_r.
Qed.

Section Frames.

Context {R : Type} {client : LLRPReaderClient R}.

Implicit Types st : @State R.

Variable X : Type.
Variable f : @State R -> X.

(** The basic operations, each under what it asks of [f]. *)

Lemma emit_frame (x : X) (e : Event) :
  (forall st, f (record e st) = f st) -> preserves (frame f x) (emit e).
Proof. intros H st Hst. unfold frame in *. simpl. rewrite H. exact Hst. Qed.

Lemma assign_TAG_DATA_frame (x : X) (tags : list RFIDTag) :
  (forall e st, silent e = true -> f (record e st) = f st) ->
  (forall v st, f (set_TAG_DATA v st) = f st) ->
  preserves (frame f x) (assign_TAG_DATA tags).
Proof.
  intros Hrec Htag st Hst. unfold frame in *. simpl.
  rewrite Hrec, Htag; [exact Hst | reflexivity].
Qed.

Lemma call_reader_frame (x : X) (m : ReaderMethod) :
  (forall e st, silent e = true -> f (record e st) = f st) ->
  (forall v st, f (set_READER v st) = f st) ->
  preserves (frame f x) (call_reader m).
Proof.
  intros Hrec Hrdr st Hst. unfold frame, call_reader in *.
  destruct (READER st) as [r|]; [|exact Hst].
  destruct (invoke m r) as [[e|] r']; simpl;
    rewrite Hrdr, Hrec; auto.
Qed.

Lemma queue_put_frame (x : X) (item : list json) :
  (forall v st, f (set_TAG_QUEUE v st) = f st) ->
  preserves (frame f x) (queue_put item).
Proof. intros H st Hst. unfold frame in *. simpl. rewrite H. exact Hst. Qed.

Lemma set_TAG_QUEUE_frame (x : X) (v : list (list json)) :
  (forall v st, f (set_TAG_QUEUE v st) = f st) ->
  preserves (frame f x) (modify (set_TAG_QUEUE v)).
Proof. intros H st Hst. unfold frame in *. simpl. rewrite H. exact Hst. Qed.

Lemma connections_append_frame (x : X) (ws : WebSocket) :
  (forall v st, f (set_ACTIVE_CONNECTIONS v st) = f st) ->
  preserves (frame f x) (connections_append ws).
Proof. intros H st Hst. unfold frame in *. simpl. rewrite H. exact Hst. Qed.

Lemma connections_remove_frame (x : X) (ws : WebSocket) :
  (forall v st, f (set_ACTIVE_CONNECTIONS v st) = f st) ->
  preserves (frame f x) (connections_remove ws).
Proof.
  intros H st Hst. unfold frame, connections_remove in *.
  destruct (list_remove ws (ACTIVE_CONNECTIONS st)); simpl;
    [rewrite H|]; exact Hst.
Qed.

(** The code of the HTTP handlers and of the event callback names only
    [READER] and [TAG_DATA], and sends nothing. *)
Section OfRequests.

Hypothesis Hrec : forall e st, silent e = true -> f (record e st) = f st.
Hypothesis Htag : forall v st, f (set_TAG_DATA v st) = f st.
Hypothesis Hrdr : forall v st, f (set_READER v st) = f st.

Ltac basic_request :=
  first [ apply emit_frame; intros; apply Hrec; reflexivity
        | apply assign_TAG_DATA_frame; assumption
        | apply call_reader_frame; assumption ].

Lemma handler_frame (x : X) (req : Request) : preserves (frame f x) (handler req).
Proof.
  destruct req; simpl;
    unfold start, stop, get_tags, status, is_reading, clear, start_reading,
      stop_reading, clear_tag_data, reader_is_alive, log, sleep;
    walk basic_request.
Qed.

Lemma start_stop_begin_frame (x : X) : preserves (frame f x) start_stop_begin.
Proof.
  unfold start_stop_begin, start_reading, clear_tag_data, reader_is_alive,
    log, sleep.
  walk basic_request.
Qed.

Lemma start_stop_end_frame (x : X) : preserves (frame f x) start_stop_end.
Proof.
  unfold start_stop_end, stop_reading, reader_is_alive, log, sleep.
  walk basic_request.
Qed.

Lemma handle_event_frame (x : X) (event : LLRPEvent) :
  preserves (frame f x) (handle_event event).
Proof.
  unfold handle_event, start_reading, stop_reading, clear_tag_data,
    reader_is_alive, log, sleep.
  walk basic_request.
Qed.

End OfRequests.

(** The tag-report callback names only [TAG_DATA] and [TAG_QUEUE]. *)
Lemma tag_report_cb_frame (x : X) (tag_reports : list TagReport) :
  (forall e st, silent e = true -> f (record e st) = f st) ->
  (forall v st, f (set_TAG_DATA v st) = f st) ->
  (forall v st, f (set_TAG_QUEUE v st) = f st) ->
  preserves (frame f x) (tag_report_cb tag_reports).
Proof.
  intros Hrec Htag Hq. unfold tag_report_cb, log.
  walk ltac:(first [ apply emit_frame; intros; apply Hrec; reflexivity
                   | apply assign_TAG_DATA_frame; assumption
                   | apply queue_put_frame; assumption ]).
Qed.

(** The WebSocket handler names only [ACTIVE_CONNECTIONS], and sends
    nothing. *)
Section OfSockets.

Hypothesis Hrec : forall e st, silent e = true -> f (record e st) = f st.
Hypothesis Hconn : forall v st, f (set_ACTIVE_CONNECTIONS v st) = f st.

Ltac basic_socket :=
  first [ apply emit_frame; intros; apply Hrec; reflexivity
        | apply connections_append_frame; assumption
        | apply connections_remove_frame; assumption ].

Lemma websocket_open_frame (x : X) (ws : WebSocket) (accept_failure : option exn) :
  preserves (frame f x) (websocket_open ws accept_failure).
Proof. unfold websocket_open, log. walk basic_socket. Qed.

Lemma websocket_receive_frame (x : X) (ws : WebSocket) (o : RecvOutcome) :
  preserves (frame f x) (websocket_receive ws o).
Proof. unfold websocket_receive, receive_text, log. walk basic_socket. Qed.

End OfSockets.

(** The polling loop names only [TAG_QUEUE] and [ACTIVE_CONNECTIONS]. *)
Section OfPoller.

Hypothesis Hrec : forall e st, f (record e st) = f st.
Hypothesis Hq : forall v st, f (set_TAG_QUEUE v st) = f st.
Hypothesis Hconn : forall v st, f (set_ACTIVE_CONNECTIONS v st) = f st.

Ltac basic_poller :=
  first [ apply emit_frame; intros; apply Hrec
        | apply set_TAG_QUEUE_frame; assumption
        | apply connections_remove_frame; assumption ].

Lemma poll_queue_frame (x : X) : preserves (frame f x) poll_queue.
Proof. unfold poll_queue, log. walk basic_poller. Qed.

Lemma send_tags_frame (x : X) (tags : list json) (c : WebSocket) (o : SendOutcome) :
  preserves (frame f x) (send_tags tags c o).
Proof. unfold send_tags, send_json, log. walk basic_poller. Qed.

Lemma sleep_frame (x : X) (ms : Z) : preserves (frame f x) (sleep ms).
Proof. unfold sleep. walk basic_poller. Qed.

End OfPoller.

End Frames.

(** ** The service, action by action *)

(** Side conditions of the frame lemmas. *)
Ltac frame_side :=
  intros; first [reflexivity | apply sent_on_record_silent; assumption].

(** Puts the code that made it back in the place of a state of the
    module; [E] says what the code returned. *)
Ltac back E :=
  match type of E with
  | _ = (?r, ?st1) => change st1 with (snd (r, st1)); rewrite <- E
  end.

Section Actions.

Context {R : Type} {client : LLRPReaderClient R}.

Implicit Types st : @State R.
Implicit Types s : @System R.

Lemma step_frame (a : @Action R) s s' :
  step a s = Some s' ->
  (touches_connections a = false ->
   ACTIVE_CONNECTIONS (globals s') = ACTIVE_CONNECTIONS (globals s))
  /\ (touches_queue a = false ->
      TAG_QUEUE (globals s') = TAG_QUEUE (globals s))
  /\ (is_poller_step a = false ->
      poller s' = poller s
      /\ forall ws, sent_on ws (trace (globals s'))
                    = sent_on ws (trace (globals s)))
  /\ (touches_connections a = true ->
      TAG_DATA (globals s') = TAG_DATA (globals s)
      /\ READER (globals s') = READER (globals s)).
Proof.
  intros Hstep.
  destruct a; simpl in Hstep;
    cbn [touches_connections touches_queue is_poller_step].
  - (* an HTTP request *)
    inversion Hstep; subst; simpl.
    split; [intros _|split; [intros _|split; [intros _; split; [reflexivity|intros ws]|discriminate]]].
    + apply (@handler_frame R client _ ACTIVE_CONNECTIONS); frame_side.
    + apply (@handler_frame R client _ TAG_QUEUE); frame_side.
    + apply (@handler_frame R client _ (fun st => sent_on ws (trace st)));
        frame_side.
  - (* /start-stop goes to sleep *)
    destruct (start_stop_begin (globals s)) as [[u|e] st1] eqn:E;
      inversion Hstep; subst; simpl; back E;
      (split; [intros _|split; [intros _|split; [intros _; split; [reflexivity|intros ws]|discriminate]]]).
    all: first
      [ apply (@start_stop_begin_frame R client _ ACTIVE_CONNECTIONS); frame_side
      | apply (@start_stop_begin_frame R client _ TAG_QUEUE); frame_side
      | apply (@start_stop_begin_frame R client _
                 (fun st => sent_on ws (trace st))); frame_side ].
  - (* /start-stop wakes up *)
    destruct (sleeping s); [discriminate|].
    inversion Hstep; subst; simpl.
    split; [intros _|split; [intros _|split; [intros _; split; [reflexivity|intros ws]|discriminate]]].
    + apply (@start_stop_end_frame R client _ ACTIVE_CONNECTIONS); frame_side.
    + apply (@start_stop_end_frame R client _ TAG_QUEUE); frame_side.
    + apply (@start_stop_end_frame R client _ (fun st => sent_on ws (trace st)));
        frame_side.
  - (* a connection is opened *)
    destruct (fresh ws s); [|discriminate].
    destruct (websocket_open ws accept_failure (globals s)) as [[u|e] st1] eqn:E;
      inversion Hstep; subst; simpl; back E;
      (split; [discriminate|split; [intros _|split; [intros _; split; [reflexivity|intros ws']|intros _; split]]]).
    all: first
      [ apply (@websocket_open_frame R _ TAG_QUEUE); frame_side
      | apply (@websocket_open_frame R _ (fun st => sent_on ws' (trace st)));
        frame_side
      | apply (@websocket_open_frame R _ TAG_DATA); frame_side
      | apply (@websocket_open_frame R _ READER); frame_side ].
  - (* a connection receives *)
    destruct (contains ws (receiving s)); [|discriminate].
    destruct (websocket_receive ws o (globals s)) as [[[|]|e] st1] eqn:E;
      inversion Hstep; subst; simpl; back E;
      (split; [discriminate|split; [intros _|split; [intros _; split; [reflexivity|intros ws']|intros _; split]]]).
    all: first
      [ apply (@websocket_receive_frame R _ TAG_QUEUE); frame_side
      | apply (@websocket_receive_frame R _ (fun st => sent_on ws' (trace st)));
        frame_side
      | apply (@websocket_receive_frame R _ TAG_DATA); frame_side
      | apply (@websocket_receive_frame R _ READER); frame_side ].
  - (* the polling task *)
    split; [discriminate|split; [discriminate|split; [discriminate|intros _]]].
    unfold poller_step in Hstep.
    destruct (poller s) as [|tags [|connection pending]|e].
    + destruct (poll_queue (globals s)) as [[[[tags connections]|]|e] st1] eqn:E;
        inversion Hstep; subst; simpl; back E; split.
      all: first
        [ apply (@poll_queue_frame R _ TAG_DATA); frame_side
        | apply (@poll_queue_frame R _ READER); frame_side
        | idtac ].
      all: first
        [ apply (@sleep_frame R _ TAG_DATA); try frame_side;
          apply (@poll_queue_frame R _ TAG_DATA); frame_side
        | apply (@sleep_frame R _ READER); try frame_side;
          apply (@poll_queue_frame R _ READER); frame_side ].
    + inversion Hstep; subst; simpl. split; reflexivity.
    + destruct (send_tags tags connection o (globals s)) as [[u|e] st1] eqn:E;
        inversion Hstep; subst; simpl; back E; split.
      all: first
        [ apply (@send_tags_frame R _ TAG_DATA); frame_side
        | apply (@send_tags_frame R _ READER); frame_side ].
    + discriminate.
  - (* the tag-report callback *)
    inversion Hstep; subst; simpl.
    split; [intros _|split; [discriminate|split; [intros _; split; [reflexivity|intros ws]|discriminate]]].
    + apply (@tag_report_cb_frame R _ ACTIVE_CONNECTIONS); frame_side.
    + apply (@tag_report_cb_frame R _ (fun st => sent_on ws (trace st)));
        frame_side.
  - (* the event callback *)
    inversion Hstep; subst; simpl.
    split; [intros _|split; [intros _|split; [intros _; split; [reflexivity|intros ws]|discriminate]]].
    + apply (@handle_event_frame R client _ ACTIVE_CONNECTIONS); frame_side.
    + apply (@handle_event_frame R client _ TAG_QUEUE); frame_side.
    + apply (@handle_event_frame R client _ (fun st => sent_on ws (trace st)));
        frame_side.
  - (* the reader's own thread *)
    destruct (READER (globals s)); [|discriminate].
    inversion Hstep; subst; simpl.
    repeat split; try discriminate; reflexivity.
Qed.

End Actions.

Section ServiceFacts.

Context {R : Type} {client : LLRPReaderClient R}.

Implicit Types st : @State R.
Implicit Types s : @System R.

(** X17.  In every state of the running service no connection is twice in
    [ACTIVE_CONNECTIONS], no connection has two handlers, and [READER] is
    set. *)
Theorem service_keeps_connections_distinct s :
  reachable s ->
  NoDup (ACTIVE_CONNECTIONS (globals s))
  /\ NoDup (receiving s)
  /\ READER (globals s) <> None.
Proof.
  intros Hreach.
  destruct (reachable_invariant Hreach) as [[Hr Hnd _ _] Hrecv _]. auto.
Qed.

(** X18.  Each piece of code leaves alone the globals it does not name,
    however long the service runs.  As long as only HTTP requests and the
    two callbacks are handled, [ACTIVE_CONNECTIONS] does not change; as
    long as neither the tag-report callback nor the polling loop runs,
    [TAG_QUEUE] does not change; as long as the polling loop does not run,
    no message is sent; and as long as only the WebSocket handlers and the
    polling loop run, [TAG_DATA] and [READER] do not change. *)
Theorem actions_leave_other_globals_alone (actions : list (@Action R)) :
  forall s s',
    run actions s = Some s' ->
    (forallb (fun a => negb (touches_connections a)) actions = true ->
     ACTIVE_CONNECTIONS (globals s') = ACTIVE_CONNECTIONS (globals s))
    /\ (forallb (fun a => negb (touches_queue a)) actions = true ->
        TAG_QUEUE (globals s') = TAG_QUEUE (globals s))
    /\ (forallb (fun a => negb (is_poller_step a)) actions = true ->
        poller s' = poller s
        /\ forall ws, sent_on ws (trace (globals s'))
                      = sent_on ws (trace (globals s)))
    /\ (forallb touches_connections actions = true ->
        TAG_DATA (globals s') = TAG_DATA (globals s)
        /\ READER (globals s') = READER (globals s)).
Proof.
  induction actions as [|a actions IH]; intros s s' Hrun; simpl in Hrun.
  - inversion Hrun; subst. repeat split.
  - destruct (step a s) as [s1|] eqn:Hstep; [|discriminate].
    destruct (step_frame a s Hstep) as [F1 [F2 [F3 F4]]].
    destruct (IH s1 s' Hrun) as [G1 [G2 [G3 G4]]].
    cbn [forallb].
    split; [|split; [|split]]; intros H; apply andb_true_iff in H;
      destruct H as [Ha Hrest].
    + apply negb_true_iff in Ha. rewrite (G1 Hrest). exact (F1 Ha).
    + apply negb_true_iff in Ha. rewrite (G2 Hrest). exact (F2 Ha).
    + apply negb_true_iff in Ha.
      destruct (G3 Hrest) as [Gp Gs]. destruct (F3 Ha) as [Fp Fs].
      split; [congruence|]. intros ws. rewrite Gs. apply Fs.
    + destruct (G4 Hrest) as [Gt Gr]. destruct (F4 Ha) as [Ft Fr].
      split; congruence.
Qed.

Lemma tag_report_cb_queue_grows st (batch : list TagReport) :
  exists more,
    TAG_QUEUE (snd (tag_report_cb batch st)) = TAG_QUEUE st ++ more.
Proof.
  destruct (tags_of_reports batch) as [tags|] eqn:E.
  - rewrite (tag_report_cb_translated st _ E). simpl. eauto.
  - rewrite (tag_report_cb_undecodable st _ E). exists []. simpl.
    rewrite app_nil_r. reflexivity.
Qed.

(** Once the polling task has ended it stays ended, whatever happens. *)
Lemma stopped_forever (e : exn) (actions : list (@Action R)) :
  forall s s',
    poller s = Stopped e ->
    run actions s = Some s' ->
    poller s' = Stopped e
    /\ (forall ws, sent_on ws (trace (globals s'))
                   = sent_on ws (trace (globals s)))
    /\ exists more, TAG_QUEUE (globals s') = TAG_QUEUE (globals s) ++ more.
Proof.
  induction actions as [|a actions IH]; intros s s' Hp Hrun; simpl in Hrun.
  - inversion Hrun; subst. repeat split; auto.
    exists []. rewrite app_nil_r. reflexivity.
  - destruct (step a s) as [s1|] eqn:Hstep; [|discriminate].
    assert (Hnp : is_poller_step a = false).
    { destruct a; try reflexivity. simpl in Hstep. unfold poller_step in Hstep.
      rewrite Hp in Hstep. discriminate. }
    destruct (step_frame a s Hstep) as [_ [Hq [Hs _]]].
    destruct (Hs Hnp) as [Hp1 Hsent1].
    assert (Hq1 : exists more,
               TAG_QUEUE (globals s1) = TAG_QUEUE (globals s) ++ more).
    { destruct (touches_queue a) eqn:Et.
      - destruct a; try discriminate. simpl in Hstep.
        inversion Hstep; subst. simpl. apply tag_report_cb_queue_grows.
      - exists []. rewrite app_nil_r. apply Hq. reflexivity. }
    destruct (IH s1 s') as [H1 [H2 [more2 H3]]]; [congruence | exact Hrun |].
    destruct Hq1 as [more1 Hq1].
    split; [exact H1|]. split.
    + intros ws. rewrite H2. apply Hsent1.
    + exists (more1 ++ more2). rewrite H3, Hq1, app_assoc. reflexivity.
Qed.

(** X19.  When the polling loop turns to a connection that has meanwhile
    left [ACTIVE_CONNECTIONS] (its handler saw the disconnect first) and the
    send raises an [Exception], the [remove] in the [except] clause raises
    [ValueError] and the polling task ends.  From then on, whatever the
    service does, the task stays ended, no message is sent to any
    connection any more, and the queue only grows. *)
Theorem polling_task_ends_on_unlisted_connection s (tags : list json)
    (connection : WebSocket) (pending : list WebSocket) (e : exn) :
  poller s = Sending tags (connection :: pending) ->
  ~ In connection (ACTIVE_CONNECTIONS (globals s)) ->
  isinstance_Exception e = true ->
  exists s',
    step (PollerStep (SendRaises e)) s = Some s'
    /\ poller s' = Stopped ValueError
    /\ forall actions s'',
         run actions s' = Some s'' ->
         poller s'' = Stopped ValueError
         /\ (forall ws, sent_on ws (trace (globals s''))
                        = sent_on ws (trace (globals s')))
         /\ exists more,
              TAG_QUEUE (globals s'') = TAG_QUEUE (globals s') ++ more.
Proof.
  intros Hp Hout He.
  pose proof (@send_tags_failed_absent R (globals s) tags connection e He Hout)
    as Hfst.
  simpl. unfold poller_step. rewrite Hp.
  destruct (send_tags tags connection (SendRaises e) (globals s))
    as [[u|e'] st1]; simpl in Hfst; [discriminate|].
  inversion Hfst; subst.
  eexists. split; [reflexivity|]. split; [reflexivity|].
  intros actions s'' Hrun.
  apply (@stopped_forever ValueError actions _ s''); [reflexivity | exact Hrun].
Qed.

End ServiceFacts.

(** * The further properties on the stand-in service *)

Lemma demo_left_reachable : reachable demo_left.
Proof. exists demo_boot, demo_actions_left. split; reflexivity. Qed.

(** X1 on a batch whose second report is not ASCII. *)
Lemma tag_report_cb_rejects_non_ascii_witness :
  In demo_report_binary [demo_report; demo_report_binary]
  /\ ascii_bytes (EPC demo_report_binary) = false
  /\ tag_report_cb [demo_report; demo_report_binary] (globals demo_sending)
     = (Raise UnicodeDecodeError, globals demo_sending).
Proof.
  assert (Hin : In demo_report_binary [demo_report; demo_report_binary])
    by (simpl; auto).
  split; [exact Hin|]. split; [reflexivity|].
  exact (@tag_report_cb_rejects_non_ascii
           SimReader (globals demo_sending) _ _ Hin eq_refl).
Defined.

(** X3 right after a report of one tag. *)
Lemma last_read_is_the_queued_message_witness :
  fst (tag_report_cb [demo_report] (globals demo_boot)) = Ok tt
  /\ fst (get_tags (snd (tag_report_cb [demo_report] (globals demo_boot))))
     = Ok (tags_message [model_dump demo_tag]).
Proof.
  split; [reflexivity|].
  exact (f_equal fst
           (@last_read_is_the_queued_message
              SimReader (globals demo_boot) [demo_report] eq_refl)).
Defined.

(** X4 with two connections, the first of which fails. *)
Lemma polling_round_keeps_the_delivered_witness :
  TAG_QUEUE demo_two_items = [model_dump demo_tag] :: [[model_dump demo_tag_b]]
  /\ (forall c, In c (ACTIVE_CONNECTIONS demo_two_items) ->
                caught (demo_outcome c) = true)
  /\ ACTIVE_CONNECTIONS (snd (process_queue_iteration demo_outcome demo_two_items))
     = [2].
Proof.
  assert (Hc : forall c, In c (ACTIVE_CONNECTIONS demo_two_items) ->
                         caught (demo_outcome c) = true).
  { intros c [<-|[<-|[]]]; reflexivity. }
  split; [reflexivity|]. split; [exact Hc|].
  exact (proj1 (@polling_round_keeps_the_delivered
                  SimReader demo_two_items demo_outcome _ _ eq_refl Hc)).
Defined.

(** X5 with three rounds on a queue of two items. *)
Lemma polling_rounds_take_one_item_each_witness :
  (forall o c, In o [demo_outcome; all_sent; all_sent] -> caught (o c) = true)
  /\ fst (process_queue [demo_outcome; all_sent; all_sent] demo_two_items) = Ok tt
  /\ TAG_QUEUE (snd (process_queue [demo_outcome; all_sent; all_sent]
                       demo_two_items)) = [].
Proof.
  assert (Hc : forall o c, In o [demo_outcome; all_sent; all_sent] ->
                           caught (o c) = true).
  { intros o c [<-|[<-|[<-|[]]]]; try reflexivity.
    unfold demo_outcome. destruct (Nat.eqb c 1); reflexivity. }
  pose proof (@polling_rounds_take_one_item_each
                SimReader _ demo_two_items Hc) as [H1 [H2 _]].
  split; [exact Hc|]. split; [exact H1 | exact H2].
Defined.

(** X7 with three invocations of the callback, the second of which raises. *)
Lemma reported_batches_reach_the_subscribers_witness :
  TAG_QUEUE (globals demo_sending) = []
  /\ queued_items [[demo_report]; [demo_report_binary]; [demo_report; demo_report]]
     = [[model_dump demo_tag]; [model_dump demo_tag; model_dump demo_tag]]
  /\ TAG_QUEUE
       (snd (process_queue (repeat all_sent 2)
               (deliver [[demo_report]; [demo_report_binary];
                         [demo_report; demo_report]]
                        (globals demo_sending)))) = [].
Proof.
  split; [reflexivity|]. split; [reflexivity|].
  exact (proj1 (proj2 (@reported_batches_reach_the_subscribers
                         SimReader (globals demo_sending)
                         [[demo_report]; [demo_report_binary];
                          [demo_report; demo_report]] eq_refl))).
Defined.

(** X8 with a new connection that sends one text and disconnects. *)
Lemma websocket_session_restores_connections_witness :
  ~ In 5 (ACTIVE_CONNECTIONS (globals demo_sending))
  /\ isinstance_Exception WebSocketDisconnect = true
  /\ fst (websocket_endpoint 5 None
            (map RecvText ["hello"%string] ++ [RecvRaises WebSocketDisconnect])
            (globals demo_sending)) = Ok tt
  /\ ACTIVE_CONNECTIONS
       (snd (websocket_endpoint 5 None
               (map RecvText ["hello"%string] ++ [RecvRaises WebSocketDisconnect])
               (globals demo_sending)))
     = ACTIVE_CONNECTIONS (globals demo_sending).
Proof.
  assert (Hnew : ~ In 5 (ACTIVE_CONNECTIONS (globals demo_sending))).
  { simpl. intros [H|[H|[]]]; discriminate. }
  pose proof (@websocket_session_restores_connections
                SimReader (globals demo_sending) 5 ["hello"%string]
                WebSocketDisconnect [] Hnew eq_refl) as [H1 [H2 _]].
  split; [exact Hnew|]. split; [reflexivity|]. split; [exact H1 | exact H2].
Defined.

(** X9 with a handler that is cancelled while it waits. *)
Lemma cancelled_websocket_stays_listed_witness :
  isinstance_Exception CancelledError = false
  /\ fst (websocket_endpoint 5 None
            (map RecvText [] ++ RecvRaises CancelledError :: [])
            (globals demo_sending)) = Raise CancelledError
  /\ ACTIVE_CONNECTIONS
       (snd (websocket_endpoint 5 None
               (map RecvText [] ++ RecvRaises CancelledError :: [])
               (globals demo_sending)))
     = ACTIVE_CONNECTIONS (globals demo_sending) ++ [5].
Proof.
  split; [reflexivity|].
  exact (@cancelled_websocket_stays_listed
           SimReader (globals demo_sending) 5 [] CancelledError [] eq_refl).
Defined.

(** X10 with connection 1 after the polling loop has dropped it. *)
Lemma websocket_end_of_unlisted_connection_witness :
  ~ In 1 (ACTIVE_CONNECTIONS (globals demo_left))
  /\ isinstance_Exception WebSocketDisconnect = true
  /\ fst (websocket_receive 1 (RecvRaises WebSocketDisconnect) (globals demo_left))
     = Raise ValueError.
Proof.
  assert (Hout : ~ In 1 (ACTIVE_CONNECTIONS (globals demo_left)))
    by (simpl; tauto).
  split; [exact Hout|]. split; [reflexivity|].
  exact (proj1 (@websocket_end_of_unlisted_connection
                  SimReader (globals demo_left) 1 WebSocketDisconnect
                  Hout eq_refl)).
Defined.

(** X11 with the stand-in reader client. *)
Lemma lifespan_startup_registers_before_connect_witness :
  fst (lifespan_startup (@module_init SimReader)) = Ok tt
  /\ exists r0,
       new_client READER_IP PORT lifespan_config = Ok r0
       /\ READER (snd (lifespan_startup (@module_init SimReader)))
          = Some (snd (invoke connect
                         (snd (invoke add_event_callback
                                 (snd (invoke add_tag_report_callback r0))))))
       /\ trace (snd (lifespan_startup (@module_init SimReader)))
          = trace (@module_init SimReader)
            ++ [EvReaderCall add_tag_report_callback;
                EvReaderCall add_event_callback;
                EvReaderCall connect;
                EvLog INFO "RFID Reader initialized during startup"].
Proof.
  split; [reflexivity|].
  destruct (@lifespan_startup_registers_before_connect
              SimReader sim_client module_init eq_refl)
    as [r0 [Hnew [_ [_ [_ [HR [_ [_ [_ Htr]]]]]]]]].
  exists r0. split; [exact Hnew|]. split; [exact HR | exact Htr].
Defined.

(** X12 with a reader client that cannot be constructed. *)
Lemma lifespan_startup_without_client_witness :
  @new_client SimReader failing_client READER_IP
    (@PORT SimReader failing_client) lifespan_config = Raise OtherException
  /\ @reader_down SimReader failing_client module_init
  /\ @lifespan_startup SimReader failing_client module_init
     = (Raise OtherException, module_init).
Proof.
  assert (Hd : @reader_down SimReader failing_client module_init)
    by (left; reflexivity).
  split; [reflexivity|]. split; [exact Hd|].
  exact (@lifespan_startup_without_client
           SimReader failing_client module_init OtherException eq_refl Hd).
Defined.

(** X13 with a reader client whose [stopPolitely] raises, and with none. *)
Lemma lifespan_shutdown_stops_then_disconnects_witness :
  @lifespan_shutdown SimReader stubborn_client demo_no_reader
  = (Ok tt, demo_no_reader)
  /\ effects (trace (snd (@lifespan_shutdown SimReader stubborn_client
                            (globals demo_boot))))
     = effects (trace (globals demo_boot)) ++ [EvReaderCall stopPolitely].
Proof.
  split.
  - apply (proj1 (@lifespan_shutdown_stops_then_disconnects
                    SimReader stubborn_client demo_no_reader)).
    left. reflexivity.
  - exact (proj2 (proj2 (@lifespan_shutdown_stops_then_disconnects
                           SimReader stubborn_client (globals demo_boot))
                    (mkSimReader true 3) eq_refl eq_refl)).
Defined.

(** X14 with a reader client whose [startInventory] raises. *)
Lemma failed_startInventory_leaves_the_handlers_witness :
  READER demo_two_items = Some (mkSimReader true 3)
  /\ @is_alive SimReader stubborn_client (mkSimReader true 3) = true
  /\ @invoke SimReader stubborn_client startInventory (mkSimReader true 3)
     = (Some OtherException, mkSimReader true 3)
  /\ fst (@start SimReader stubborn_client demo_two_items) = Raise OtherException
  /\ fst (@start_stop SimReader stubborn_client demo_two_items)
     = Raise OtherException
  /\ TAG_DATA (snd (@start SimReader stubborn_client demo_two_items)) = [].
Proof.
  pose proof (@failed_startInventory_leaves_the_handlers
                SimReader stubborn_client demo_two_items
                (mkSimReader true 3) (mkSimReader true 3) OtherException
                eq_refl eq_refl eq_refl) as [H1 [H2 [_ [H4 _]]]].
  split; [reflexivity|]. split; [reflexivity|]. split; [reflexivity|].
  split; [exact H1|]. split; [exact H2 | exact H4].
Defined.

(** X15 with the stand-in reader client. *)
Lemma start_stop_starts_sleeps_stops_witness :
  READER demo_two_items = Some (mkSimReader true 3)
  /\ is_alive (mkSimReader true 3) = true
  /\ invoke startInventory (mkSimReader true 3) = (None, mkSimReader true 6)
  /\ fst (start_stop demo_two_items) = Ok JNull
  /\ trace (snd (start_stop demo_two_items))
     = [EvAssignTagData []; EvReaderCall startInventory; EvSleep 1000;
        EvReaderCall stopPolitely].
Proof.
  pose proof (@start_stop_starts_sleeps_stops
                SimReader sim_client demo_two_items
                (mkSimReader true 3) (mkSimReader true 6)
                eq_refl eq_refl eq_refl) as [H1 [_ H3]].
  split; [reflexivity|]. split; [reflexivity|]. split; [reflexivity|].
  split; [exact H1 | exact H3].
Defined.

(** X16 with an event of port 1 that has no flag. *)
Lemma gpi_event_without_flag_stops_witness :
  observable
    (snd (handle_event
            (mkLLRPEvent (Some (Some (mkGPIEventParam (Some 1%Z) None))) None)
            (globals demo_sending)))
  = observable (snd (stop_reading (globals demo_sending))).
Proof.
  exact (@gpi_event_without_flag_stops
           SimReader sim_client (globals demo_sending)
           (mkLLRPEvent (Some (Some (mkGPIEventParam (Some 1%Z) None))) None)
           (mkGPIEventParam (Some 1%Z) None) eq_refl eq_refl eq_refl).
Defined.

(** X17 on the stand-in service with two connections. *)
Lemma service_keeps_connections_distinct_witness :
  reachable demo_sending
  /\ NoDup (ACTIVE_CONNECTIONS (globals demo_sending))
  /\ NoDup (receiving demo_sending)
  /\ READER (globals demo_sending) <> None.
Proof.
  split; [exact demo_sending_reachable|].
  exact (@service_keeps_connections_distinct
           SimReader sim_client demo_sending demo_sending_reachable).
Defined.

(** X18 with requests and callbacks, and with the WebSocket handlers. *)
Lemma actions_leave_other_globals_alone_witness :
  (exists s',
     run [Http GET_clear; OnTagReport [demo_report]; Http GET_start]
         demo_sending = Some s'
     /\ ACTIVE_CONNECTIONS (globals s') = ACTIVE_CONNECTIONS (globals demo_sending))
  /\ (exists s',
        run [WsOpen 7 None; WsReceive 1 (RecvRaises OtherException)]
            demo_sending = Some s'
        /\ TAG_DATA (globals s') = TAG_DATA (globals demo_sending)
        /\ TAG_QUEUE (globals s') = TAG_QUEUE (globals demo_sending)).
Proof.
  split.
  - eexists. split; [reflexivity|].
    exact (proj1 (@actions_leave_other_globals_alone
                    SimReader sim_client
                    [Http GET_clear; OnTagReport [demo_report]; Http GET_start]
                    demo_sending _ eq_refl) eq_refl).
  - eexists. split; [reflexivity|].
    pose proof (@actions_leave_other_globals_alone
                  SimReader sim_client
                  [WsOpen 7 None; WsReceive 1 (RecvRaises OtherException)]
                  demo_sending _ eq_refl)
      as [_ [H2 [_ H4]]].
    split; [exact (proj1 (H4 eq_refl)) | exact (H2 eq_refl)].
Defined.

(** X19 on the stand-in service: connection 1 has left while the polling
    loop was about to send to it; afterwards a report is queued and the
    task is asked to go on. *)
Lemma polling_task_ends_on_unlisted_connection_witness :
  reachable demo_left
  /\ poller demo_left = Sending [model_dump demo_tag] [1]
  /\ ~ In 1 (ACTIVE_CONNECTIONS (globals demo_left))
  /\ isinstance_Exception OtherException = true
  /\ exists s',
       step (PollerStep (SendRaises OtherException)) demo_left = Some s'
       /\ poller s' = Stopped ValueError
       /\ run [OnTagReport [demo_report]; PollerStep Sent] s' = None
       /\ forall actions s'',
            run actions s' = Some s'' ->
            poller s'' = Stopped ValueError
            /\ (forall ws, sent_on ws (trace (globals s''))
                           = sent_on ws (trace (globals s')))
            /\ exists more,
                 TAG_QUEUE (globals s'') = TAG_QUEUE (globals s') ++ more.
Proof.
  assert (Hout : ~ In 1 (ACTIVE_CONNECTIONS (globals demo_left)))
    by (simpl; tauto).
  split; [exact demo_left_reachable|]. split; [reflexivity|].
  split; [exact Hout|]. split; [reflexivity|].
  destruct (@polling_task_ends_on_unlisted_connection
              SimReader sim_client demo_left [model_dump demo_tag] 1 [] OtherException
              eq_refl Hout eq_refl) as [s' [H1 [H2 H3]]].
  exists s'. split; [exact H1|]. split; [exact H2|]. split; [|exact H3].
  simpl in H1. inversion H1; subst. reflexivity.
Defined.
